(** * lewis: the stream adapter's command binding and request dispatch

    A shallow embedding of [lewis/adapters/stream.py] (classes [Cmd], [Var],
    [StreamAdapter] and [StreamHandler]) together with the part of
    [test/test_core_adapters.py] that exercises [AdapterCollection.handle].

    Python values are a small first-order datatype, the device and the
    interface are attribute stores, exceptions are values of [Exception]
    (the instances of Python's [Exception] class, which is what
    [except Exception] catches), and the regular expression library is an
    interface ([Regex]) with one executable instance for a fragment of
    Python's [re] syntax. *)

From Stdlib Require Import ZArith QArith String Ascii List Lia DecimalString.
From stdpp Require Import base tactics option list strings pretty gmap.

Local Open Scope string_scope.
Local Open Scope list_scope.

(** ** Python values *)

(** The two objects a command can be bound to: the adapter itself
    ([self]) and the device it exposes ([self._device]). *)
Inductive target := Self | Device.

(** Callable objects. [BoundMethod] is what [getattr(target, name)] returns
    for a method; [Getter] and [Setter] are the closures [Var.bind] creates
    (they carry their [__doc__]); [Function] is any callable given directly
    in a command list, looked up by name in the environment;
    [DefaultReturnMapping] is the default value of [return_mapping],
    [lambda x: None if x is None else str(x)]. *)
Inductive callable_obj :=
| BoundMethod (t : target) (name : string)
| Getter (t : target) (member : string) (doc : option string)
| Setter (t : target) (member : string) (doc : option string)
| Function (name : string)
| DefaultReturnMapping.

Inductive value :=
| VNone
| VBool (b : bool)
| VInt (z : Z)
| VStr (s : string)
| VCallable (c : callable_obj).

#[global] Instance target_eq_dec : EqDecision target.
Proof. solve_decision. Defined.
#[global] Instance callable_obj_eq_dec : EqDecision callable_obj.
Proof. solve_decision. Defined.
#[global] Instance value_eq_dec : EqDecision value.
Proof. solve_decision. Defined.

(** The instances of [Exception] that the modelled code raises or meets. *)
Inductive Exception :=
| RuntimeError (msg : string)
| TypeError (msg : string)
| AttributeError (msg : string)
| ValueError (msg : string)
| NotImplementedError (msg : string)
| ReError (msg : string)
| UserError (name msg : string).

#[global] Instance Exception_eq_dec : EqDecision Exception.
Proof. solve_decision. Defined.

(** [callable(x)] *)
Definition callable (x : value) : bool :=
  match x with VCallable _ => true | _ => false end.

(** [x is None] *)
Definition is_None (x : value) : bool :=
  match x with VNone => true | _ => false end.

(** [str(x)]; the text for a callable stands for its [repr], which holds an
    address in Python. *)
Definition py_str (x : value) : string :=
  match x with
  | VNone => "None"
  | VBool true => "True"
  | VBool false => "False"
  | VInt z => pretty z
  | VStr s => s
  | VCallable _ => "<callable>"
  end.

(** Truth value of an optional string ([if pattern], [doc or ...]). *)
Definition truthy_str (s : option string) : bool :=
  match s with
  | None => false
  | Some s => negb (String.eqb s "")
  end.

(** [a or b] on optional strings. *)
Definition or_str (a b : option string) : option string :=
  if truthy_str a then a else b.

(** ** Computations: results and state *)

(** A computation that reads the objects and either raises or returns. *)
Definition result (A : Type) : Type := Exception + A.

Definition ok {A} (x : A) : result A := inr x.
Definition raise_ {A} (e : Exception) : result A := inl e.
Definition result_bind {A B} (m : result A) (f : A -> result B) : result B :=
  match m with
  | inl e => inl e
  | inr x => f x
  end.

Notation "'let!' x := c 'in' k" := (result_bind c (fun x => k))
  (at level 10, x pattern, c at level 100, k at level 200,
   format "'[v' 'let!'  x  :=  c  'in' '/' k ']'").

(** The mutable part of the two objects: their instance dictionaries. *)
Record World := {
  interface_dict : gmap string value;
  device_dict : gmap string value
}.

Definition instance_dict (w : World) (t : target) : gmap string value :=
  match t with
  | Self => interface_dict w
  | Device => device_dict w
  end.

Definition set_instance_dict (w : World) (t : target) (d : gmap string value)
  : World :=
  match t with
  | Self => {| interface_dict := d; device_dict := device_dict w |}
  | Device => {| interface_dict := interface_dict w; device_dict := d |}
  end.

(** The state a request is processed in: the objects, the calls made to
    the commands' callables (as a mock would record them), the buffer of
    the connection's [StreamHandler] and the byte strings it has pushed to
    the connection. *)
Record St := {
  world : World;
  calls : list (value * list value);
  buffer : list string;
  pushed : list string
}.

Definition set_world (w : World) (st : St) : St :=
  {| world := w; calls := calls st; buffer := buffer st; pushed := pushed st |}.
Definition set_calls (c : list (value * list value)) (st : St) : St :=
  {| world := world st; calls := c; buffer := buffer st; pushed := pushed st |}.
Definition set_buffer (b : list string) (st : St) : St :=
  {| world := world st; calls := calls st; buffer := b; pushed := pushed st |}.
Definition set_pushed (p : list string) (st : St) : St :=
  {| world := world st; calls := calls st; buffer := buffer st; pushed := p |}.

Definition M (A : Type) : Type := St -> result A * St.

Definition ret {A} (x : A) : M A := fun st => (inr x, st).
Definition raise {A} (e : Exception) : M A := fun st => (inl e, st).
Definition bind {A B} (m : M A) (f : A -> M B) : M B := fun st =>
  match m st with
  | (inl e, st') => (inl e, st')
  | (inr x, st') => f x st'
  end.

Notation "'let*' x := c 'in' k" := (bind c (fun x => k))
  (at level 10, x pattern, c at level 100, k at level 200,
   format "'[v' 'let*'  x  :=  c  'in' '/' k ']'").

(** [try: body except Exception as error: handler(error)] *)
Definition try_except {A} (body : M A) (handler : Exception -> M A) : M A :=
  fun st =>
    match body st with
    | (inl e, st') => handler e st'
    | (inr x, st') => (inr x, st')
    end.

Definition lift_result {A} (r : result A) : M A := fun st => (r, st).

(** The body of a method or function: it may read and write the objects. *)
Definition body : Type := list value -> World -> result value * World.

Definition run_body (b : body) (args : list value) : M value := fun st =>
  let '(r, w) := b args (world st) in (r, set_world w st).

Definition record_call (f : value) (args : list value) : M unit := fun st =>
  (inr tt, set_calls (calls st ++ [(f, args)]) st).

(** [self.push(data)] of [asynchat.async_chat] *)
Definition push (data : string) : M unit := fun st =>
  (inr tt, set_pushed (pushed st ++ [data]) st).

(** ** The objects commands are bound to *)

(** What a class holds under a name: a method, a property (a data
    descriptor, with its docstring, its getter and its optional setter) or
    a plain class attribute. *)
Inductive class_attr :=
| CMethod (doc : option string) (b : body)
| CProperty (doc : option string) (fget : World -> result value)
            (fset : option (value -> World -> result unit * World))
| CData (v : value).

(** The classes of the adapter and of the device, and the callables that
    command lists name directly. *)
Record Env := {
  interface_class : gmap string class_attr;
  device_class : gmap string class_attr;
  functions : string -> body;
  function_doc : string -> option string
}.

Definition class_of (env : Env) (t : target) : gmap string class_attr :=
  match t with
  | Self => interface_class env
  | Device => device_class env
  end.

(** [name in dir(target)] *)
Definition in_dir (env : Env) (w : World) (t : target) (name : string) : bool :=
  match class_of env t !! name, instance_dict w t !! name with
  | None, None => false
  | _, _ => true
  end.

Definition no_attribute (name : string) : Exception :=
  AttributeError ("object has no attribute '" ++ name ++ "'").

(** [getattr(target, name)]: a property of the class first, then the
    instance dictionary, then the other class attributes. *)
Definition getattr (env : Env) (w : World) (t : target) (name : string)
  : result value :=
  match class_of env t !! name with
  | Some (CProperty _ fget _) => fget w
  | other =>
      match instance_dict w t !! name with
      | Some v => inr v
      | None =>
          match other with
          | Some (CMethod _ _) => inr (VCallable (BoundMethod t name))
          | Some (CData v) => inr v
          | _ => inl (no_attribute name)
          end
      end
  end.

(** [getattr(target, name, None)]: only an [AttributeError] gives the
    default; [name] has to be a string. *)
Definition getattr_default (env : Env) (w : World) (t : target) (name : value)
  : result value :=
  match name with
  | VStr name =>
      match getattr env w t name with
      | inl (AttributeError _) => inr VNone
      | r => r
      end
  | _ => inl (TypeError "getattr(): attribute name must be string")
  end.

(** [setattr(target, name, new_value)] *)
Definition setattr (env : Env) (t : target) (name : string) (v : value)
  (w : World) : result unit * World :=
  match class_of env t !! name with
  | Some (CProperty _ _ (Some fset)) => fset v w
  | Some (CProperty _ _ None) => (inl (AttributeError "can't set attribute"), w)
  | _ => (inr tt, set_instance_dict w t (<[name := v]> (instance_dict w t)))
  end.

(** [getattr(type(target), name)] *)
Definition getattr_type (env : Env) (t : target) (name : string)
  : result class_attr :=
  match class_of env t !! name with
  | Some a => inr a
  | None => inl (no_attribute name)
  end.

(** [inspect.isdatadescriptor] *)
Definition isdatadescriptor (a : class_attr) : bool :=
  match a with CProperty _ _ _ => true | _ => false end.

(** [inspect.getdoc] of what a class holds *)
Definition getdoc_attr (a : class_attr) : option string :=
  match a with
  | CMethod doc _ => doc
  | CProperty doc _ _ => doc
  | CData _ => None
  end.

(** [inspect.getdoc] of a callable *)
Definition getdoc (env : Env) (c : callable_obj) : option string :=
  match c with
  | BoundMethod t name =>
      match class_of env t !! name with
      | Some a => getdoc_attr a
      | None => None
      end
  | Getter _ _ doc => doc
  | Setter _ _ doc => doc
  | Function name => function_doc env name
  | DefaultReturnMapping => None
  end.

Definition arity_error (name : string) : Exception :=
  TypeError (name ++ "() got an unexpected number of arguments").

(** Calling a callable object with positional arguments. *)
Definition call (env : Env) (c : callable_obj) (args : list value) : M value :=
  match c with
  | BoundMethod t name =>
      match class_of env t !! name with
      | Some (CMethod _ b) => run_body b args
      | _ => raise (TypeError "object is not callable")
      end
  | Getter t member _ =>
      match args with
      | [] => fun st => (getattr env (world st) t member, st)
      | _ => raise (arity_error "getter")
      end
  | Setter t member _ =>
      match args with
      | [new_value] =>
          run_body (fun _ w =>
                      let '(r, w') := setattr env t member new_value w in
                      (result_bind r (fun _ => ok VNone), w')) args
      | _ => raise (arity_error "setter")
      end
  | Function name => run_body (functions env name) args
  | DefaultReturnMapping =>
      match args with
      | [x] => ret (if is_None x then VNone else VStr (py_str x))
      | _ => raise (arity_error "<lambda>")
      end
  end.

(** Calling any value [f] with the argument list [args] unpacked. *)
Definition call_value (env : Env) (f : value) (args : list value) : M value :=
  match f with
  | VCallable c => call env c args
  | _ => raise (TypeError "object is not callable")
  end.

(** ** The regular expression library *)

(** What the adapter uses of Python's [re]: [re.compile(pattern, 0)], the
    attributes [pattern] and [groups] of a compiled pattern, its equality
    and hash (compiled patterns are members of a [set]), and
    [pattern.match(request)] followed by [match.groups()], which has one
    entry per group, [None] for a group that did not take part. *)
Class Regex := {
  Pattern : Type;
  Pattern_eq_dec :: EqDecision Pattern;
  Pattern_countable :: Countable Pattern;
  re_compile : string -> result Pattern;
  re_source : Pattern -> string;
  re_groups : Pattern -> nat;
  re_match : Pattern -> string -> option (list value);
  re_match_groups p s gs : re_match p s = Some gs -> length gs = re_groups p
}.

(** ** [class Cmd(CommandBase)] *)

Module Cmd.
Section Cmd.
Context `{Regex} (env : Env).

(** The attributes of a [Cmd] object. [member] is the attribute of
    [CommandBase]; [Cmd.__init__] passes [None] for it. *)
Record t := {
  member : value;
  func : value;
  raw_pattern : option string;
  pattern : option Pattern;
  argument_mappings : option (list value);
  return_mapping : value;
  doc : option string
}.

Definition expected_mappings (groups given : nat) : Exception :=
  RuntimeError ("Expected " ++ pretty groups ++ " argument mapping(s), got "
                ++ pretty given).

(** [re.compile(b(pattern), 0) if pattern else None] *)
Definition compile_pattern (pattern : option string)
  : result (option Pattern) :=
  match pattern with
  | Some p =>
      if truthy_str pattern
      then let! c := re_compile p in ok (Some c)
      else ok None
  | None => ok None
  end.

(** The check of [argument_mappings] against [self.pattern.groups] *)
Definition check_mappings (compiled : option Pattern)
  (argument_mappings : option (list value)) : result unit :=
  match argument_mappings with
  | Some mappings =>
      match compiled with
      | Some p =>
          if decide (re_groups p ≠ length mappings)
          then raise_ (expected_mappings (re_groups p) (length mappings))
          else ok tt
      | None =>
          raise_ (AttributeError
                    "'NoneType' object has no attribute 'groups'")
      end
  | None => ok tt
  end.

(** [Cmd.__init__(self, func, pattern, argument_mappings, return_mapping,
    doc)] *)
Definition init (func : value) (pattern : option string)
  (argument_mappings : option (list value)) (return_mapping : value)
  (doc : option string) : result t :=
  let! compiled := compile_pattern pattern in
  let! _ := check_mappings compiled argument_mappings in
  ok {| member := VNone;
        func := func;
        raw_pattern := pattern;
        pattern := compiled;
        argument_mappings := argument_mappings;
        return_mapping := return_mapping;
        doc := or_str doc (match func with
                           | VCallable c => getdoc env c
                           | _ => None
                           end) |}.

(** [Cmd.bind(self, target)]: [None], or a list with one command. *)
Definition bind (w : World) (target : target) (self : t)
  : result (option (list t)) :=
  if callable (func self) then ok (Some [self])
  else
    let! method := getattr_default env w target (func self) in
    if is_None method then ok None
    else
      let! bound := init method (raw_pattern self) (argument_mappings self)
                         (return_mapping self) (doc self) in
      ok (Some [bound]).

(** [Cmd.can_process(self, request)] *)
Definition can_process (self : t) (request : string) : result bool :=
  match pattern self with
  | Some p => ok (bool_decide (is_Some (re_match p request)))
  | None => raise_ (AttributeError
                      "'NoneType' object has no attribute 'match'")
  end.

(** The list comprehension over [zip(self.argument_mappings, arguments)],
    which calls each mapping on the argument paired with it. *)
Fixpoint map_zip (mappings arguments : list value) : M (list value) :=
  match mappings, arguments with
  | f :: mappings, a :: arguments =>
      let* x := call_value env f [a] in
      let* xs := map_zip mappings arguments in
      ret (x :: xs)
  | _, _ => ret []
  end.

(** [Cmd.map_arguments(self, arguments)] *)
Definition map_arguments (self : t) (arguments : list value)
  : M (list value) :=
  match argument_mappings self with
  | None => ret arguments
  | Some mappings => map_zip mappings arguments
  end.

(** [Cmd.map_return_value(self, return_value)] *)
Definition map_return_value (self : t) (return_value : value) : M value :=
  if callable (return_mapping self)
  then call_value env (return_mapping self) [return_value]
  else if negb (is_None (return_mapping self))
       then ret (return_mapping self)
       else ret return_value.

(** [Cmd.process_request(self, request)]; the call of [self.func] is
    recorded in [calls]. *)
Definition process_request (self : t) (request : string) : M value :=
  if negb (callable (func self))
  then raise (RuntimeError "Trying to process request on unbound Binder.")
  else
    match pattern self with
    | None => raise (AttributeError
                       "'NoneType' object has no attribute 'match'")
    | Some p =>
        match re_match p request with
        | None => raise (RuntimeError "Request can not be processed.")
        | Some groups =>
            let* args := map_arguments self groups in
            let* _ := record_call (func self) args in
            let* return_value := call_value env (func self) args in
            map_return_value self return_value
        end
    end.
End Cmd.
Arguments t {_}.
End Cmd.

(** ** [class Var(CommandBase)] *)

Module Var.
Section Var.
Context `{Regex} (env : Env).

Record t := {
  member : string;
  read_pattern : option string;
  write_pattern : option string;
  argument_mappings : option (list value);
  return_mapping : value;
  doc : option string
}.

(** The [__doc__] that [Var.bind] gives a getter or setter: set only for
    a data descriptor of the target's class, from its docstring. *)
Definition accessor_doc (target : target) (self : t) (prefix : string)
  : result (option string) :=
  let! a := getattr_type env target (member self) in
  if isdatadescriptor a then
    match getdoc_attr a with
    | Some d => ok (Some (prefix ++ d)%string)
    | None =>
        raise_ (TypeError "can only concatenate str (not NoneType) to str")
    end
  else ok None.

(** [Var.bind(self, target)]: [None], or a list of up to two commands. *)
Definition bind (w : World) (target : target) (self : t)
  : result (option (list Cmd.t)) :=
  if negb (in_dir env w target (member self)) then ok None
  else
    let! getters :=
      match read_pattern self with
      | Some read_pattern =>
          let! d := accessor_doc target self "Getter: " in
          let! c := Cmd.init env (VCallable (Getter target (member self) d))
                             (Some read_pattern) None (return_mapping self)
                             (doc self) in
          ok [c]
      | None => ok []
      end in
    let! setters :=
      match write_pattern self with
      | Some write_pattern =>
          let! d := accessor_doc target self "Setter: " in
          let! c := Cmd.init env (VCallable (Setter target (member self) d))
                             (Some write_pattern) (argument_mappings self)
                             (return_mapping self) (doc self) in
          ok [c]
      | None => ok []
      end in
    ok (Some (getters ++ setters)).
End Var.
End Var.

(** A command of an adapter's [commands] list. *)
Inductive CommandBase `{Regex} :=
| IsCmd (c : Cmd.t)
| IsVar (v : Var.t).

(** ** [class StreamAdapter(Adapter)] *)

Module StreamAdapter.
Section StreamAdapter.
Context `{Regex} (env : Env).

(** What a subclass overrides: the terminators, the command list and
    [handle_error]. *)
Record cls := {
  in_terminator : string;
  out_terminator : string;
  commands : option (list CommandBase);
  handle_error : string -> Exception -> World -> result value * World
}.

Record t := {
  class : cls;
  bound_commands : list Cmd.t
}.

(** [StreamAdapter.handle_error]: [pass] *)
Definition default_handle_error (request : string) (error : Exception)
  (w : World) : result value * World := (inr VNone, w).

(** [cmd.bind(target)] *)
Definition bind (w : World) (target : target) (cmd : CommandBase)
  : result (option (list Cmd.t)) :=
  match cmd with
  | IsCmd c => Cmd.bind env w target c
  | IsVar v => Var.bind env w target v
  end.

(** [cmd.member] *)
Definition member (cmd : CommandBase) : value :=
  match cmd with
  | IsCmd c => Cmd.member c
  | IsVar v => VStr (Var.member v)
  end.

(** Truth value of what [bind] returns: [None] and the empty list are
    false. *)
Definition truthy_bound (b : option (list Cmd.t)) : bool :=
  match b with
  | Some (_ :: _) => true
  | _ => false
  end.

(** [cmd.bind(self) or cmd.bind(self._device) or None] *)
Definition resolve (w : World) (cmd : CommandBase)
  : result (option (list Cmd.t)) :=
  let! on_self := bind w Self cmd in
  if truthy_bound on_self then ok on_self
  else
    let! on_device := bind w Device cmd in
    if truthy_bound on_device then ok on_device
    else ok None.

Definition non_existing_member (member : value) : Exception :=
  RuntimeError ("Unable to produce callable object for non-existing member '"
                ++ py_str member ++ "' of device or interface.").

Definition multiple_commands (source : string) : Exception :=
  RuntimeError ("The regular expression " ++ source
                ++ " is associated with multiple commands.").

(** The inner loop of [_bind_commands], over the commands one [bind]
    returned. *)
Fixpoint add_bound (bound : list Cmd.t) (patterns : gset (option Pattern))
  (bound_commands : list Cmd.t)
  : result (gset (option Pattern) * list Cmd.t) :=
  match bound with
  | [] => ok (patterns, bound_commands)
  | bound_cmd :: bound =>
      if bool_decide (Cmd.pattern bound_cmd ∈ patterns) then
        match Cmd.pattern bound_cmd with
        | Some p => raise_ (multiple_commands (re_source p))
        | None => raise_ (AttributeError
                            "'NoneType' object has no attribute 'pattern'")
        end
      else add_bound bound ({[Cmd.pattern bound_cmd]} ∪ patterns)
                     (bound_commands ++ [bound_cmd])
  end.

(** The outer loop of [_bind_commands]; it returns the set of patterns
    with the commands bound so far. *)
Fixpoint bind_loop (w : World) (cmds : list CommandBase)
  (patterns : gset (option Pattern)) (bound_commands : list Cmd.t)
  : result (gset (option Pattern) * list Cmd.t) :=
  match cmds with
  | [] => ok (patterns, bound_commands)
  | cmd :: cmds =>
      let! bound := resolve w cmd in
      match bound with
      | None => raise_ (non_existing_member (member cmd))
      | Some bound =>
          let! (patterns, bound_commands) :=
            add_bound bound patterns bound_commands in
          bind_loop w cmds patterns bound_commands
      end
  end.

(** [StreamAdapter._bind_commands(self, cmds)] *)
Definition _bind_commands (w : World) (cmds : list CommandBase)
  : result (list Cmd.t) :=
  let! (_, bound_commands) := bind_loop w cmds ∅ [] in
  ok bound_commands.

(** [StreamAdapter.__init__]: the part that sets [bound_commands]. *)
Definition init (c : cls) (w : World) : result t :=
  match commands c with
  | None => raise_ (TypeError "'NoneType' object is not iterable")
  | Some cmds =>
      let! bound := _bind_commands w cmds in
      ok {| class := c; bound_commands := bound |}
  end.
End StreamAdapter.
Arguments cls {_}.
Arguments t {_}.
End StreamAdapter.

(** ** [class StreamHandler(asynchat.async_chat)] *)

Module StreamHandler.
Section StreamHandler.
Context `{Regex} (env : Env) (target : StreamAdapter.t).

(** [StreamHandler.collect_incoming_data(self, data)] *)
Definition collect_incoming_data (data : string) : M unit := fun st =>
  (inr tt, set_buffer (buffer st ++ [data]) st).

(** [request = b''.join(self.buffer)] followed by [self.buffer = []] *)
Definition take_request : M string := fun st =>
  (inr (String.concat "" (buffer st)), set_buffer [] st).

(** [next((cmd for cmd in cmds if cmd.can_process(request)), None)] *)
Fixpoint next_can_process (cmds : list Cmd.t) (request : string)
  : result (option Cmd.t) :=
  match cmds with
  | [] => ok None
  | cmd :: cmds =>
      let! can := Cmd.can_process cmd request in
      if can then ok (Some cmd) else next_can_process cmds request
  end.

(** The body of the [try] statement of [found_terminator]. *)
Definition dispatch (request : string) : M value :=
  let* cmd := lift_result
                (next_can_process (StreamAdapter.bound_commands target)
                                  request) in
  match cmd with
  | None => raise (RuntimeError "None of the device's commands matched.")
  | Some cmd => Cmd.process_request env cmd request
  end.

(** [self.target.handle_error(request, error)] *)
Definition handle_error (request : string) (error : Exception) : M value :=
  fun st =>
    let '(r, w) := StreamAdapter.handle_error
                     (StreamAdapter.class target) request error (world st) in
    (r, set_world w st).

(** [reply + self.target.out_terminator], then [b(...)], which leaves a
    byte string as it is. *)
Definition frame (reply : value) : result string :=
  match reply with
  | VStr s =>
      ok (s ++ StreamAdapter.out_terminator (StreamAdapter.class target))%string
  | _ => raise_ (TypeError "unsupported operand type(s) for +")
  end.

(** The last statement of [found_terminator]:
    [if reply is not None: self.push(b(reply + out_terminator))]. *)
Definition send_reply (reply : value) : M unit :=
  if negb (is_None reply) then
    let* data := lift_result (frame reply) in
    push data
  else ret tt.

(** [StreamHandler.found_terminator(self)] *)
Definition found_terminator : M unit :=
  let* request := take_request in
  let* reply := try_except (dispatch request)
                           (fun error => handle_error request error) in
  send_reply reply.
End StreamHandler.
End StreamHandler.

(** ** An executable regular expression engine

  An instance of [Regex] for a fragment of Python's [re] syntax on byte
  strings without flags: literals, [.], character classes with ranges,
  the escapes [\d \w \s \D \W \S \n \r \t] and escaped punctuation, [^]
  and [$], alternation, capturing and [(?:...)] groups, and the greedy
  quantifiers [* + ?] on a piece that cannot match the empty string.
  Every other pattern is refused by [compile] with an error, so that a
  pattern this engine accepts is matched as Python matches it:
  leftmost alternative first, greedy repetition with backtracking, the
  last iteration's text in a repeated group, [None] for a group that took
  no part, [$] also before a final newline. *)

Module Re.

Inductive regex :=
| Empty
| Char (c : ascii)
| AnyChar
| Class (negated : bool) (ranges : list (ascii * ascii))
| Bol
| Eol
| Seq (r1 r2 : regex)
| Alt (r1 r2 : regex)
| Star (r : regex)
| Plus (r : regex)
| Opt (r : regex)
| Group (index : nat) (r : regex).

Fixpoint nullable (r : regex) : bool :=
  match r with
  | Empty | Bol | Eol | Star _ | Opt _ => true
  | Char _ | AnyChar | Class _ _ => false
  | Seq a b => nullable a && nullable b
  | Alt a b => nullable a || nullable b
  | Plus a => nullable a
  | Group _ a => nullable a
  end.

Definition in_range (c : ascii) (r : ascii * ascii) : bool :=
  ((nat_of_ascii (fst r) <=? nat_of_ascii c)%nat
   && (nat_of_ascii c <=? nat_of_ascii (snd r))%nat)%bool.

Definition in_class (negated : bool) (ranges : list (ascii * ascii))
  (c : ascii) : bool :=
  xorb negated (existsb (in_range c) ranges).

Definition newline : ascii := ascii_of_nat 10.

(** *** Matching *)

(** The text between two positions of the request, both given by what
    remains to be read. *)
Definition taken (from to : list ascii) : string :=
  string_of_list_ascii (take (length from - length to) from).

(** [run fuel whole r s caps k]: match [r] at the front of [s], then go on
    with [k]; [whole] is the length of the request, [caps] the groups so
    far. One unit of fuel is used per iteration of a repetition, and an
    iteration of [Star] has to read at least one character. *)
Fixpoint run (fuel : nat) (whole : nat)
  : regex -> list ascii -> list value
    -> (list ascii -> list value -> option (list value))
    -> option (list value) :=
  fix go (r : regex) (s : list ascii) (caps : list value)
      (k : list ascii -> list value -> option (list value)) {struct r}
    : option (list value) :=
    let again (a : regex) (s1 : list ascii) (c1 : list value) :=
      match fuel with
      | S fuel => run fuel whole (Star a) s1 c1 k
      | O => None
      end in
    match r with
    | Empty => k s caps
    | Char c =>
        match s with
        | x :: s' => if Ascii.eqb x c then k s' caps else None
        | [] => None
        end
    | AnyChar =>
        match s with
        | x :: s' => if Ascii.eqb x newline then None else k s' caps
        | [] => None
        end
    | Class negated ranges =>
        match s with
        | x :: s' => if in_class negated ranges x then k s' caps else None
        | [] => None
        end
    | Bol => if (length s =? whole)%nat then k s caps else None
    | Eol =>
        match s with
        | [] => k s caps
        | [x] => if Ascii.eqb x newline then k s caps else None
        | _ => None
        end
    | Seq a b => go a s caps (fun s1 c1 => go b s1 c1 k)
    | Alt a b =>
        match go a s caps k with
        | Some c => Some c
        | None => go b s caps k
        end
    | Star a =>
        match go a s caps
                 (fun s1 c1 =>
                    if (length s1 <? length s)%nat then again a s1 c1
                    else None) with
        | Some c => Some c
        | None => k s caps
        end
    | Plus a => go a s caps (again a)
    | Opt a =>
        match go a s caps k with
        | Some c => Some c
        | None => k s caps
        end
    | Group i a =>
        go a s caps (fun s1 c1 => k s1 (<[i := VStr (taken s s1)]> c1))
    end.

(** *** Parsing *)

Inductive group_kind := Capturing (index : nat) | NonCapturing.

(** One nesting level while it is read: the alternatives that are
    finished, and the pieces of the current one, last piece first, each
    with a flag that says it already carries a quantifier. *)
Record frame := {
  alts : list regex;
  pieces : list (regex * bool)
}.

Record parser := {
  current : frame;
  stack : list (frame * group_kind);
  groups : nat;
  class : option (bool * list (ascii * ascii))
}.

Definition start : parser :=
  {| current := {| alts := []; pieces := [] |}; stack := []; groups := 0;
     class := None |}.

Definition mk_seq (pieces : list (regex * bool)) : regex :=
  fold_left (fun acc p => match acc with
                          | Empty => fst p
                          | _ => Seq (fst p) acc
                          end) pieces Empty.

Definition close (f : frame) : regex :=
  foldr Alt (mk_seq (pieces f)) (alts f).

Definition add_piece (r : regex) (st : parser) : parser :=
  {| current := {| alts := alts (current st);
                   pieces := (r, false) :: pieces (current st) |};
     stack := stack st; groups := groups st; class := None |}.

Definition quantify (q : regex -> regex) (st : parser) : option parser :=
  match pieces (current st) with
  | (r, false) :: ps =>
      if nullable r then None
      else Some {| current := {| alts := alts (current st);
                                 pieces := (q r, true) :: ps |};
                   stack := stack st; groups := groups st; class := None |}
  | _ => None
  end.

Definition next_alt (st : parser) : parser :=
  {| current := {| alts := alts (current st)
                           ++ [mk_seq (pieces (current st))];
                   pieces := [] |};
     stack := stack st; groups := groups st; class := None |}.

Definition open_group (capturing : bool) (st : parser) : parser :=
  {| current := {| alts := []; pieces := [] |};
     stack := (current st,
               if capturing then Capturing (groups st) else NonCapturing)
              :: stack st;
     groups := if capturing then S (groups st) else groups st;
     class := None |}.

Definition close_group (st : parser) : option parser :=
  match stack st with
  | (parent, kind) :: stack =>
      let r := close (current st) in
      let piece := match kind with
                   | Capturing i => Group i r
                   | NonCapturing => r
                   end in
      Some {| current := {| alts := alts parent;
                            pieces := (piece, false) :: pieces parent |};
              stack := stack; groups := groups st; class := None |}
  | [] => None
  end.

Definition enter_class (negated : bool) (st : parser) : parser :=
  {| current := current st; stack := stack st; groups := groups st;
     class := Some (negated, []) |}.

Definition add_ranges (rs : list (ascii * ascii)) (st : parser) : parser :=
  {| current := current st; stack := stack st; groups := groups st;
     class := match class st with
              | Some (negated, ranges) => Some (negated, ranges ++ rs)
              | None => None
              end |}.

Definition digit : list (ascii * ascii) := [("0", "9")]%char.
Definition word : list (ascii * ascii) :=
  [("a", "z"); ("A", "Z"); ("0", "9"); ("_", "_")]%char.
Definition space : list (ascii * ascii) :=
  [(" "%char, " "%char); (ascii_of_nat 9, ascii_of_nat 13)].

Definition alnum (c : ascii) : bool := in_class false word c.

(** The character a backslash escape stands for, where it is one. *)
Definition escaped_char (e : ascii) : option ascii :=
  if Ascii.eqb e "n" then Some newline
  else if Ascii.eqb e "r" then Some (ascii_of_nat 13)
  else if Ascii.eqb e "t" then Some (ascii_of_nat 9)
  else if alnum e then None
  else Some e.

Definition escape (e : ascii) : option regex :=
  if Ascii.eqb e "d" then Some (Class false digit)
  else if Ascii.eqb e "D" then Some (Class true digit)
  else if Ascii.eqb e "w" then Some (Class false word)
  else if Ascii.eqb e "W" then Some (Class true word)
  else if Ascii.eqb e "s" then Some (Class false space)
  else if Ascii.eqb e "S" then Some (Class true space)
  else Char <$> escaped_char e.

Definition class_escape (e : ascii) : option (list (ascii * ascii)) :=
  if Ascii.eqb e "d" then Some digit
  else if Ascii.eqb e "w" then Some word
  else if Ascii.eqb e "s" then Some space
  else (fun c => [(c, c)]) <$> escaped_char e.

Fixpoint parse (s : list ascii) (st : parser) : option (regex * nat) :=
  match class st with
  | Some (negated, ranges) =>
      match s with
      | [] => None
      | c :: tail =>
          if Ascii.eqb c "]" then
            match ranges with
            | [] => None
            | _ => parse tail (add_piece (Class negated ranges) st)
            end
          else if Ascii.eqb c "\" then
            match tail with
            | e :: rest =>
                match class_escape e with
                | Some rs => parse rest (add_ranges rs st)
                | None => None
                end
            | [] => None
            end
          else
            match tail with
            | dash :: hi :: rest =>
                if Ascii.eqb dash "-" && negb (Ascii.eqb hi "]") then
                  if Ascii.eqb hi "\" then None
                  else if (nat_of_ascii c <=? nat_of_ascii hi)%nat
                       then parse rest (add_ranges [(c, hi)] st)
                       else None
                else parse tail (add_ranges [(c, c)] st)
            | _ => parse tail (add_ranges [(c, c)] st)
            end
      end
  | None =>
      match s with
      | [] =>
          match stack st with
          | [] => Some (close (current st), groups st)
          | _ => None
          end
      | c :: tail =>
          if Ascii.eqb c "\" then
            match tail with
            | e :: rest =>
                match escape e with
                | Some r => parse rest (add_piece r st)
                | None => None
                end
            | [] => None
            end
          else if Ascii.eqb c "(" then
            match tail with
            | q :: rest =>
                if Ascii.eqb q "?" then
                  match rest with
                  | colon :: rest =>
                      if Ascii.eqb colon ":"
                      then parse rest (open_group false st)
                      else None
                  | [] => None
                  end
                else parse tail (open_group true st)
            | [] => None
            end
          else if Ascii.eqb c ")" then
            match close_group st with
            | Some st => parse tail st
            | None => None
            end
          else if Ascii.eqb c "|" then parse tail (next_alt st)
          else if Ascii.eqb c "*" then
            match quantify Star st with
            | Some st => parse tail st
            | None => None
            end
          else if Ascii.eqb c "+" then
            match quantify Plus st with
            | Some st => parse tail st
            | None => None
            end
          else if Ascii.eqb c "?" then
            match quantify Opt st with
            | Some st => parse tail st
            | None => None
            end
          else if Ascii.eqb c "[" then
            match tail with
            | x :: rest =>
                if Ascii.eqb x "^" then parse rest (enter_class true st)
                else parse tail (enter_class false st)
            | [] => None
            end
          else if Ascii.eqb c "." then parse tail (add_piece AnyChar st)
          else if Ascii.eqb c "^" then parse tail (add_piece Bol st)
          else if Ascii.eqb c "$" then parse tail (add_piece Eol st)
          else if Ascii.eqb c "{" || Ascii.eqb c "}" then None
          else parse tail (add_piece (Char c) st)
      end
  end.

Definition parse_pattern (source : string) : option (regex * nat) :=
  parse (list_ascii_of_string source) start.

(** *** The library's functions *)

(** [re.compile(source, 0)]; a compiled pattern is known by its source. *)
Definition compile (source : string) : result string :=
  match parse_pattern source with
  | Some _ => ok source
  | None => raise_ (ReError ("cannot compile " ++ source))
  end.

(** [pattern.groups] *)
Definition groups_of (source : string) : nat :=
  match parse_pattern source with
  | Some (_, n) => n
  | None => 0
  end.

(** [pattern.match(request)] and, on a match, [match.groups()] *)
Definition match_groups (source request : string) : option (list value) :=
  match parse_pattern source with
  | Some (r, n) =>
      let s := list_ascii_of_string request in
      run (S (length s)) (length s) r s (replicate n VNone)
          (fun _ caps => Some caps)
  | None => None
  end.
End Re.

(** *** The engine is a regular expression library *)

Ltac run_case Hr :=
  match type of Hr with
  | match ?x with _ => _ end = _ => destruct x eqn:?
  end.

(** The cases of [run] that do not go through a repetition; [Hk] is the
    assumption on the continuation. *)
Ltac run_leaf Hk Hr :=
  solve [ eauto
        | run_case Hr; [done|]; run_case Hr; solve [eauto | done]
        | run_case Hr; solve [eauto | done]
        | run_case Hr; [eauto|]; run_case Hr; [|done];
          run_case Hr; solve [eauto | done] ].

Ltac run_seq IHr1 IHr2 Hc Hr :=
  eapply IHr1; [|exact Hc|exact Hr]; intros ? ? ? ? Hr';
  cbv beta in Hr'; eapply IHr2; eauto.

Ltac run_alt IHr1 IHr2 Hr :=
  run_case Hr; [injection Hr as <-; eapply IHr1; eauto | eapply IHr2; eauto].

Ltac run_opt IHr1 Hr :=
  run_case Hr; [injection Hr as <-; eapply IHr1; eauto | eauto].

Ltac run_group IHr1 Hk Hc Hr :=
  eapply IHr1; [|exact Hc|exact Hr]; intros ? ? ? ? Hr';
  eapply Hk; [|exact Hr']; by rewrite length_insert.

(** Every continuation keeps the number of groups, so a match has one
    entry per group. *)
Lemma run_length fuel whole n : forall r s caps k res,
  (forall s' c' res',
      length c' = n -> k s' c' = Some res' -> length res' = n) ->
  length caps = n ->
  Re.run fuel whole r s caps k = Some res -> length res = n.
Proof.
  induction fuel as [|fuel IHf].
  - induction r as [| | | | | |r1 IHr1 r2 IHr2|r1 IHr1 r2 IHr2|r1 IHr1
                   |r1 IHr1|r1 IHr1|i r1 IHr1];
      intros s caps k res Hk Hc Hr; simpl in Hr.
    + run_leaf Hk Hr.
    + run_leaf Hk Hr.
    + run_leaf Hk Hr.
    + run_leaf Hk Hr.
    + run_leaf Hk Hr.
    + run_leaf Hk Hr.
    + run_seq IHr1 IHr2 Hc Hr.
    + run_alt IHr1 IHr2 Hr.
    + run_case Hr; [|eauto]. injection Hr as <-.
      eapply IHr1; [|exact Hc|eassumption].
      intros s' c' res' Hc' Hr'. cbv beta in Hr'.
      destruct (_ <? _)%nat; done.
    + eapply IHr1; [|exact Hc|exact Hr]. intros; done.
    + run_opt IHr1 Hr.
    + run_group IHr1 Hk Hc Hr.
  - induction r as [| | | | | |r1 IHr1 r2 IHr2|r1 IHr1 r2 IHr2|r1 IHr1
                   |r1 IHr1|r1 IHr1|i r1 IHr1];
      intros s caps k res Hk Hc Hr; simpl in Hr.
    + run_leaf Hk Hr.
    + run_leaf Hk Hr.
    + run_leaf Hk Hr.
    + run_leaf Hk Hr.
    + run_leaf Hk Hr.
    + run_leaf Hk Hr.
    + run_seq IHr1 IHr2 Hc Hr.
    + run_alt IHr1 IHr2 Hr.
    + run_case Hr; [|eauto]. injection Hr as <-.
      eapply IHr1; [|exact Hc|eassumption].
      intros s' c' res' Hc' Hr'. cbv beta in Hr'.
      destruct (_ <? _)%nat; [|done].
      eapply (IHf (Re.Star r1)); [exact Hk|exact Hc'|exact Hr'].
    + eapply IHr1; [|exact Hc|exact Hr]. intros s' c' res' Hc' Hr'.
      eapply (IHf (Re.Star r1)); [exact Hk|exact Hc'|exact Hr'].
    + run_opt IHr1 Hr.
    + run_group IHr1 Hk Hc Hr.
Qed.

Lemma match_groups_length source request gs :
  Re.match_groups source request = Some gs ->
  length gs = Re.groups_of source.
Proof.
  unfold Re.match_groups, Re.groups_of.
  destruct (Re.parse_pattern source) as [[r n]|]; [|done].
  intros Hr. eapply run_length; [|apply length_replicate|exact Hr].
  by intros s' c' res' Hc' [= <-].
Qed.

(** The fragment of Python's [re] as an instance of [Regex]. *)
#[export] Instance python_re : Regex := {|
  Pattern := string;
  re_compile := Re.compile;
  re_source := fun p => p;
  re_groups := Re.groups_of;
  re_match := Re.match_groups;
  re_match_groups := match_groups_length
|}.

(** ** The adapter collection

    [lewis/core/adapters.py] is not among the sources; its test
    [test_core_adapters.py] is. The test is translated as it is written,
    with the function under test as a parameter, and the function itself
    is modelled twice: as the specification words it ([tick]) and as the
    test's assertions pin it down ([handle]). Time budgets are rationals;
    the test's [0.1] and [0.05] are [1/10] and [1/20]. *)

Module AdapterCollection.


(** The collection: protocol names with the [is_running] flag of their
    adapter, in the order the adapters were added. *)
Definition registry : Type := list (string * bool).

(** [DummyAdapter(protocol, running=False)] added to a collection *)
Definition add_adapter (protocol : string) (running : bool) (r : registry)
  : option registry :=
  if existsb (fun a : string * bool => String.eqb (fst a) protocol) r
  then None
  else Some (r ++ [(protocol, running)]).


Definition running (r : registry) : registry :=
  List.filter (fun a : string * bool => snd a) r.







End AdapterCollection.

(** ** An example adapter

    The interface of the docstring of [StreamAdapter],
    [SimpleDeviceStreamInterface], with a device whose class has the
    attribute [speed]. It is what the closed statements below are
    evaluated on. *)

Module Example.

(** The builtin [int] on the decimal texts that [[0-9]+] captures. *)
Definition py_int : body := fun args w =>
  match args with
  | [VStr s] =>
      match DecimalString.NilEmpty.int_of_string s with
      | Some i => (inr (VInt (Z.of_int i)), w)
      | None => (inl (ValueError ("invalid literal for int(): " ++ s)), w)
      end
  | [VInt z] => (inr (VInt z), w)
  | _ => (inl (TypeError "int() argument must be a string or a number"), w)
  end.

(** [def set_speed(self, new_speed): self._device.speed = new_speed] *)
Definition set_speed : body := fun args w =>
  match args with
  | [new_speed] =>
      (inr VNone,
       set_instance_dict w Device (<["speed" := new_speed]> (device_dict w)))
  | _ => (inl (arity_error "set_speed"), w)
  end.

(** [def get_speed(self): return self._device.speed] *)
Definition get_speed : body := fun args w =>
  match args with
  | [] =>
      (match device_dict w !! "speed" with
       | Some v => inr v
       | None => inr (VInt 0)
       end, w)
  | _ => (inl (arity_error "get_speed"), w)
  end.

Definition env : Env := {|
  interface_class :=
    <["set_speed" := CMethod None set_speed]>
      (<["get_speed" := CMethod None get_speed]> ∅);
  device_class := <["speed" := CData (VInt 0)]> ∅;
  functions := fun _ => py_int;
  function_doc := fun _ => None
|}.

Definition int : value := VCallable (Function "int").
Definition default_return_mapping : value := VCallable DefaultReturnMapping.

Definition world0 : World := {| interface_dict := ∅; device_dict := ∅ |}.

(** A connection on which [data] has arrived. *)
Definition received (data : list string) : St :=
  {| world := world0; calls := []; buffer := data; pushed := [] |}.

(** [Cmd(func, pattern, argument_mappings)] with the default return
    mapping, when the constructor returns. *)
Definition cmd (func : value) (pattern : string)
  (argument_mappings : option (list value)) : list (Cmd.t (H := python_re)) :=
  match Cmd.init env func (Some pattern) argument_mappings
                 default_return_mapping None with
  | inr c => [c]
  | inl _ => []
  end.

Definition speed_var : Var.t :=
  {| Var.member := "speed";
     Var.read_pattern := Some "^V\?$";
     Var.write_pattern := Some "^V=([0-9]+)$";
     Var.argument_mappings := None;
     Var.return_mapping := default_return_mapping;
     Var.doc := None |}.

(** The [commands] of [SimpleDeviceStreamInterface]. *)
Definition commands : list (CommandBase (H := python_re)) :=
  (IsCmd <$> cmd (VStr "set_speed") "^S=([0-9]+)$" (Some [int]))
  ++ (IsCmd <$> cmd (VStr "get_speed") "^S\?$" None)
  ++ [IsVar speed_var].

(** The carriage return, the default terminator. *)
Definition cr : string := String (ascii_of_nat 13) "".

Definition interface (commands : list CommandBase) : StreamAdapter.cls :=
  {| StreamAdapter.in_terminator := cr;
     StreamAdapter.out_terminator := cr;
     StreamAdapter.commands := Some commands;
     StreamAdapter.handle_error := StreamAdapter.default_handle_error |}.

(** The adapter with the given bound commands and the default hook. *)
Definition adapter (bound : list Cmd.t) : StreamAdapter.t :=
  {| StreamAdapter.class := interface [];
     StreamAdapter.bound_commands := bound |}.

(** The commands of a table in which two patterns match [S=10 rpm]. *)
Definition speed_query : Cmd.t (H := python_re) :=
  {| Cmd.member := VNone; Cmd.func := VCallable (BoundMethod Self "get_speed");
     Cmd.raw_pattern := Some "^S\?$"; Cmd.pattern := Some "^S\?$";
     Cmd.argument_mappings := None;
     Cmd.return_mapping := Example.default_return_mapping; Cmd.doc := None |}.
Definition speed_setting : Cmd.t (H := python_re) :=
  {| Cmd.member := VNone; Cmd.func := VCallable (BoundMethod Self "set_speed");
     Cmd.raw_pattern := Some "S=([0-9]+)"; Cmd.pattern := Some "S=([0-9]+)";
     Cmd.argument_mappings := Some [Example.int];
     Cmd.return_mapping := Example.default_return_mapping; Cmd.doc := None |}.

End Example.

(** * Properties *)

(** ** What processing a request leaves alone *)

Section Frame.
Context `{Regex} (env : Env).

(** What a computation leaves alone when it only works on the objects. *)
Definition same_connection (st st' : St) : Prop :=
  calls st' = calls st /\ buffer st' = buffer st /\ pushed st' = pushed st.

Lemma run_body_frame b args st r st' :
  run_body b args st = (r, st') -> same_connection st st'.
Proof.
  unfold run_body. destruct (b args (world st)) as [r0 w].
  intros [= <- <-]. done.
Qed.

Lemma call_frame c args st r st' :
  call env c args st = (r, st') -> same_connection st st'.
Proof.
  destruct c as [t name|t member doc|t member doc|name|]; simpl.
  - destruct (class_of env t !! name) as [[doc b| |]|];
      first [apply run_body_frame | by intros [= <- <-]].
  - destruct args; by intros [= <- <-].
  - destruct args as [|v [|]]; first [apply run_body_frame | by intros [= <- <-]].
  - apply run_body_frame.
  - destruct args as [|v [|]]; by intros [= <- <-].
Qed.

Lemma call_value_frame f args st r st' :
  call_value env f args st = (r, st') -> same_connection st st'.
Proof.
  destruct f; simpl; first [apply call_frame | by intros [= <- <-]].
Qed.

Lemma same_connection_trans st1 st2 st3 :
  same_connection st1 st2 -> same_connection st2 st3 -> same_connection st1 st3.
Proof. unfold same_connection. intros (?&?&?) (?&?&?). repeat split; congruence. Qed.

Lemma map_zip_frame mappings : forall arguments st r st',
  Cmd.map_zip env mappings arguments st = (r, st') -> same_connection st st'.
Proof.
  induction mappings as [|f mappings IH]; intros [|a arguments] st r st'; simpl;
    try by intros [= <- <-].
  unfold bind. destruct (call_value env f [a] st) as [[e|x] st1] eqn:Hc.
  - intros [= <- <-]. eapply call_value_frame, Hc.
  - destruct (Cmd.map_zip env mappings arguments st1) as [[e|xs] st2] eqn:Hz;
      intros [= <- <-];
      (eapply same_connection_trans; [eapply call_value_frame, Hc | eapply IH, Hz]).
Qed.

Lemma map_arguments_frame c arguments st r st' :
  Cmd.map_arguments env c arguments st = (r, st') -> same_connection st st'.
Proof.
  unfold Cmd.map_arguments. destruct (Cmd.argument_mappings c).
  - apply map_zip_frame.
  - by intros [= <- <-].
Qed.

Lemma map_return_value_frame c v st r st' :
  Cmd.map_return_value env c v st = (r, st') -> same_connection st st'.
Proof.
  unfold Cmd.map_return_value.
  destruct (callable _); [apply call_value_frame|].
  destruct (negb _); by intros [= <- <-].
Qed.
End Frame.

(** ** Dispatch *)

Section Dispatch.
Context `{Regex} (env : Env).

Lemma process_request_calls c request st r st' :
  Cmd.process_request env c request st = (r, st') ->
  buffer st' = buffer st /\ pushed st' = pushed st /\
  (calls st' = calls st \/
   exists args, calls st' = calls st ++ [(Cmd.func c, args)]).
Proof.
  unfold Cmd.process_request.
  destruct (negb _); [by intros [= <- <-]; auto|].
  destruct (Cmd.pattern c) as [p|]; [|by intros [= <- <-]; auto].
  destruct (re_match p request) as [groups|]; [|by intros [= <- <-]; auto].
  unfold bind.
  destruct (Cmd.map_arguments env c groups st) as [[e|args] st1] eqn:Ha.
  { intros [= <- <-]. apply map_arguments_frame in Ha as (?&?&?). auto. }
  apply map_arguments_frame in Ha as (Ha1&Ha2&Ha3). simpl.
  destruct (call_value env (Cmd.func c) args _) as [[e|v] st2] eqn:Hc.
  { intros [= <- <-]. apply call_value_frame in Hc as (Hc1&Hc2&Hc3).
    simpl in *. rewrite Hc1, Hc2, Hc3, Ha1, Ha2, Ha3. eauto. }
  intros Hm. apply call_value_frame in Hc as (Hc1&Hc2&Hc3).
  apply map_return_value_frame in Hm as (Hm1&Hm2&Hm3).
  simpl in *. rewrite Hm1, Hm2, Hm3, Hc1, Hc2, Hc3, Ha1, Ha2, Ha3. eauto.
Qed.

End Dispatch.

Section FirstMatch.
Context `{Regex} (env : Env).


Lemma handle_error_frame (a : StreamAdapter.t) request e st r st' :
  StreamHandler.handle_error a request e st = (r, st') -> same_connection st st'.
Proof.
  unfold StreamHandler.handle_error.
  destruct (StreamAdapter.handle_error _ _ _ _) as [r0 w]. by intros [= <- <-].
Qed.

Lemma send_reply_calls (a : StreamAdapter.t) reply st r st' :
  StreamHandler.send_reply a reply st = (r, st') -> calls st' = calls st.
Proof.
  unfold StreamHandler.send_reply, bind, lift_result, push, ret.
  destruct (negb _); [|by intros [= <- <-]].
  destruct (StreamHandler.frame a reply); by intros [= <- <-].
Qed.

(** The state in which the request is dispatched: the buffer is empty. *)
Lemma found_terminator_unfold (a : StreamAdapter.t) st :
  StreamHandler.found_terminator env a st =
  let request := String.concat "" (buffer st) in
  match StreamHandler.dispatch env a request (set_buffer [] st) with
  | (inr reply, st1) => StreamHandler.send_reply a reply st1
  | (inl error, st1) =>
      match StreamHandler.handle_error a request error st1 with
      | (inr reply, st2) => StreamHandler.send_reply a reply st2
      | (inl e, st2) => (inl e, st2)
      end
  end.
Proof.
  unfold StreamHandler.found_terminator, bind, try_except,
    StreamHandler.take_request. simpl.
  destruct (StreamHandler.dispatch _ _ _ _) as [[e|v] st1]; [|done].
  by destruct (StreamHandler.handle_error _ _ _ _) as [[e'|v] st2].
Qed.

End FirstMatch.


(** ** Replies and errors *)

Section Replies.
Context `{Regex} (env : Env).

Lemma send_reply_None (a : StreamAdapter.t) st :
  StreamHandler.send_reply a VNone st = (inr tt, st).
Proof. reflexivity. Qed.

Lemma send_reply_str (a : StreamAdapter.t) s st :
  StreamHandler.send_reply a (VStr s) st
  = (inr tt,
     set_pushed (pushed st
                 ++ [(s ++ StreamAdapter.out_terminator
                               (StreamAdapter.class a))%string]) st).
Proof. reflexivity. Qed.

Lemma dispatch_frame (a : StreamAdapter.t) request st r st' :
  StreamHandler.dispatch env a request st = (r, st') ->
  buffer st' = buffer st /\ pushed st' = pushed st.
Proof.
  unfold StreamHandler.dispatch, bind, lift_result.
  destruct (StreamHandler.next_can_process _ _) as [e|[c|]];
    try by intros [= <- <-].
  intros Hp. by apply process_request_calls in Hp as (?&?&_).
Qed.

(** C7. When the request is processed without an exception and the
    mapped return value is [None], [found_terminator] pushes nothing; when
    it is a string, it pushes that string followed by the output
    terminator, once, and nothing else. *)
Theorem reply_is_framed_or_suppressed (a : StreamAdapter.t) st reply st1 :
  StreamHandler.dispatch env a (String.concat "" (buffer st))
                         (set_buffer [] st) = (inr reply, st1) ->
  (reply = VNone ->
   StreamHandler.found_terminator env a st = (inr tt, st1)
   /\ pushed st1 = pushed st)
  /\ (forall s, reply = VStr s ->
      let data := (s ++ StreamAdapter.out_terminator
                          (StreamAdapter.class a))%string in
      StreamHandler.found_terminator env a st
      = (inr tt, set_pushed (pushed st ++ [data]) st1)).
Proof.
  intros Hd. pose proof (dispatch_frame _ _ _ _ _ Hd) as [_ Hp]. simpl in Hp.
  split.
  - intros ->. rewrite found_terminator_unfold. cbv zeta. by rewrite Hd.
  - intros s -> data. rewrite found_terminator_unfold. cbv zeta. rewrite Hd.
    rewrite send_reply_str. by rewrite Hp.
Qed.

(** The causes of an exception in the [try] statement. *)
Lemma dispatch_no_match (a : StreamAdapter.t) request st :
  StreamHandler.next_can_process (StreamAdapter.bound_commands a) request
  = inr None ->
  StreamHandler.dispatch env a request st
  = (inl (RuntimeError "None of the device's commands matched."), st).
Proof.
  intros Hn. unfold StreamHandler.dispatch, bind, lift_result. by rewrite Hn.
Qed.

Lemma dispatch_argument_mapping_raises (a : StreamAdapter.t) c p groups
  request e st st1 :
  StreamHandler.next_can_process (StreamAdapter.bound_commands a) request
  = inr (Some c) ->
  callable (Cmd.func c) = true ->
  Cmd.pattern c = Some p ->
  re_match p request = Some groups ->
  Cmd.map_arguments env c groups st = (inl e, st1) ->
  StreamHandler.dispatch env a request st = (inl e, st1).
Proof.
  intros Hn Hc Hp Hm Ha. unfold StreamHandler.dispatch, bind, lift_result.
  rewrite Hn. unfold Cmd.process_request. rewrite Hc, Hp, Hm. simpl.
  unfold bind. by rewrite Ha.
Qed.

Lemma dispatch_invocation_raises (a : StreamAdapter.t) c p groups args
  request e st st1 st2 :
  StreamHandler.next_can_process (StreamAdapter.bound_commands a) request
  = inr (Some c) ->
  callable (Cmd.func c) = true ->
  Cmd.pattern c = Some p ->
  re_match p request = Some groups ->
  Cmd.map_arguments env c groups st = (inr args, st1) ->
  call_value env (Cmd.func c) args
             (set_calls (calls st1 ++ [(Cmd.func c, args)]) st1)
  = (inl e, st2) ->
  StreamHandler.dispatch env a request st = (inl e, st2).
Proof.
  intros Hn Hc Hp Hm Ha Hi. unfold StreamHandler.dispatch, bind, lift_result.
  rewrite Hn. unfold Cmd.process_request. rewrite Hc, Hp, Hm. simpl.
  unfold bind. rewrite Ha. simpl. by rewrite Hi.
Qed.

Lemma dispatch_return_mapping_raises (a : StreamAdapter.t) c p groups args
  request v e st st1 st2 st3 :
  StreamHandler.next_can_process (StreamAdapter.bound_commands a) request
  = inr (Some c) ->
  callable (Cmd.func c) = true ->
  Cmd.pattern c = Some p ->
  re_match p request = Some groups ->
  Cmd.map_arguments env c groups st = (inr args, st1) ->
  call_value env (Cmd.func c) args
             (set_calls (calls st1 ++ [(Cmd.func c, args)]) st1)
  = (inr v, st2) ->
  Cmd.map_return_value env c v st2 = (inl e, st3) ->
  StreamHandler.dispatch env a request st = (inl e, st3).
Proof.
  intros Hn Hc Hp Hm Ha Hi Hr. unfold StreamHandler.dispatch, bind, lift_result.
  rewrite Hn. unfold Cmd.process_request. rewrite Hc, Hp, Hm. simpl.
  unfold bind. rewrite Ha. simpl. by rewrite Hi.
Qed.

(** C3. Whatever exception the [try] statement of [found_terminator]
    raises, it is handed to [handle_error] with the request, in the state the
    exception left; what the hook returns is the reply, sent by the same
    [send_reply] as the mapped return value of a command: nothing is pushed
    for [None], a string is pushed with the output terminator. The
    exception itself is not the result of [found_terminator]. That no
    command matched is such an exception, as are those of an argument
    mapping, of the command's callable and of the return mapping
    ([dispatch_argument_mapping_raises], [dispatch_invocation_raises],
    [dispatch_return_mapping_raises]). *)
Theorem dispatch_errors_go_to_the_hook (a : StreamAdapter.t) st error st1
  reply w2 :
  let request := String.concat "" (buffer st) in
  let st2 := set_world w2 st1 in
  StreamHandler.dispatch env a request (set_buffer [] st) = (inl error, st1) ->
  StreamAdapter.handle_error (StreamAdapter.class a) request error (world st1)
  = (inr reply, w2) ->
  StreamHandler.found_terminator env a st = StreamHandler.send_reply a reply st2
  /\ (forall st0 st3,
        StreamHandler.dispatch env a (String.concat "" (buffer st0))
                               (set_buffer [] st0) = (inr reply, st3) ->
        StreamHandler.found_terminator env a st0
        = StreamHandler.send_reply a reply st3)
  /\ (reply = VNone ->
      StreamHandler.found_terminator env a st = (inr tt, st2)
      /\ pushed st2 = pushed st)
  /\ (forall s, reply = VStr s ->
      StreamHandler.found_terminator env a st
      = (inr tt,
         set_pushed (pushed st
                     ++ [(s ++ StreamAdapter.out_terminator
                                   (StreamAdapter.class a))%string]) st2))
  /\ (StreamHandler.next_can_process (StreamAdapter.bound_commands a) request
      = inr None ->
      error = RuntimeError "None of the device's commands matched.").
Proof.
  intros request st2 Hd Hh.
  pose proof (dispatch_frame _ _ _ _ _ Hd) as [_ Hp]. simpl in Hp.
  assert (Hf : StreamHandler.found_terminator env a st
               = StreamHandler.send_reply a reply st2).
  { rewrite found_terminator_unfold. cbv zeta. fold request. rewrite Hd.
    unfold StreamHandler.handle_error. by rewrite Hh. }
  split; [exact Hf|]. split; [|split; [|split]].
  - intros st0 st3 Hd0. rewrite found_terminator_unfold. cbv zeta.
    by rewrite Hd0.
  - intros ->. by rewrite Hf.
  - intros s ->. rewrite Hf, send_reply_str. unfold st2. simpl. by rewrite Hp.
  - intros Hn. rewrite (dispatch_no_match _ _ _ Hn) in Hd.
    by injection Hd as <- <-.
Qed.
End Replies.

Lemma reply_is_framed_or_suppressed_witness :
  pushed (snd (StreamHandler.found_terminator
                 Example.env (Example.adapter [Example.speed_query])
                 (Example.received ["S?"])))
  = [("0" ++ Example.cr)%string].
Proof.
  set (a := Example.adapter [Example.speed_query]).
  set (st := Example.received ["S?"]).
  set (d := StreamHandler.dispatch Example.env a (String.concat "" (buffer st))
                                   (set_buffer [] st)).
  assert (Hd : d = (inr (VStr "0"), snd d)) by reflexivity.
  rewrite (proj2 (reply_is_framed_or_suppressed Example.env a st _ _ Hd)
                 "0" eq_refl).
  reflexivity.
Defined.

Lemma dispatch_errors_go_to_the_hook_witness :
  StreamHandler.found_terminator
    Example.env (Example.adapter [Example.speed_query])
    (Example.received ["Q?"])
  = (inr tt, Example.received []).
Proof.
  set (a := Example.adapter [Example.speed_query]).
  set (st := Example.received ["Q?"]).
  apply (proj1 (proj2 (proj2
           (dispatch_errors_go_to_the_hook
              Example.env a st
              (RuntimeError "None of the device's commands matched.")
              (Example.received []) VNone Example.world0
              eq_refl eq_refl))) eq_refl).
Defined.

(** ** Argument and return mappings *)

Section Mappings.
Context `{Regex} (env : Env).

(** C9. [map_return_value] has three behaviours, chosen by the return
    mapping alone: a callable mapping is called on the result, a mapping
    that is neither callable nor [None] is returned whatever the result is,
    and with [None] the result is returned as it is. The default mapping
    returns [None] for [None] and [str(x)] otherwise. *)
Theorem return_mapping_behaviours (c : Cmd.t) (return_value : value) :
  Cmd.map_return_value env c return_value
  = match Cmd.return_mapping c with
    | VCallable f => call env f [return_value]
    | VNone => ret return_value
    | constant => ret constant
    end
  /\ (forall st,
        call env DefaultReturnMapping [return_value] st
        = (inr (match return_value with
                | VNone => VNone
                | x => VStr (py_str x)
                end), st)).
Proof.
  split.
  - unfold Cmd.map_return_value. by destruct (Cmd.return_mapping c).
  - intros st. by destruct return_value.
Qed.

Lemma init_inv func pattern argument_mappings return_mapping doc (c : Cmd.t) :
  Cmd.init env func pattern argument_mappings return_mapping doc = inr c ->
  exists compiled,
    Cmd.compile_pattern pattern = inr compiled
    /\ Cmd.check_mappings compiled argument_mappings = inr tt
    /\ Cmd.member c = VNone /\ Cmd.func c = func
    /\ Cmd.raw_pattern c = pattern /\ Cmd.pattern c = compiled
    /\ Cmd.argument_mappings c = argument_mappings
    /\ Cmd.return_mapping c = return_mapping.
Proof.
  unfold Cmd.init, result_bind.
  destruct (Cmd.compile_pattern pattern) as [e|compiled]; [by intros [=]|].
  destruct (Cmd.check_mappings compiled argument_mappings) as [e|[]] eqn:Hm;
    [by intros [=]|].
  intros [= <-]. by exists compiled.
Qed.

Lemma compile_pattern_nonempty pattern :
  pattern <> "" ->
  Cmd.compile_pattern (Some pattern)
  = match re_compile pattern with
    | inl e => inl e
    | inr p => inr (Some p)
    end.
Proof.
  intros Hne. unfold Cmd.compile_pattern, truthy_str.
  destruct (String.eqb_spec pattern ""); [done|]. simpl.
  by destruct (re_compile pattern).
Qed.


Lemma map_zip_pairwise mappings : forall arguments st res st',
  Cmd.map_zip env mappings arguments st = (inr res, st') ->
  length res = min (length mappings) (length arguments)
  /\ (forall i f a,
        mappings !! i = Some f -> arguments !! i = Some a ->
        exists x sti sti',
          res !! i = Some x /\ call_value env f [a] sti = (inr x, sti')).
Proof.
  induction mappings as [|f mappings IH]; intros [|a arguments] st res st';
    simpl; try (intros [= <- <-]; split; [done|by intros []]).
  unfold bind.
  destruct (call_value env f [a] st) as [[e|x] st1] eqn:Hc; [done|].
  destruct (Cmd.map_zip env mappings arguments st1) as [[e|xs] st2] eqn:Hz;
    [done|].
  intros [= <- <-]. destruct (IH _ _ _ _ Hz) as [Hlen Hi]. split.
  - simpl. by rewrite Hlen.
  - intros [|i] f' a'; simpl.
    + intros [= <-] [= <-]. eauto.
    + apply Hi.
Qed.
End Mappings.


Section Pairwise.
Context `{Regex} (env : Env).

(** C6, as the code has it. With argument mappings, [map_arguments]
    returns one value per pair of [zip(mappings, arguments)]: the i-th
    value is what the i-th mapping returned for the i-th argument, and
    there are as many values as the shorter of the two lists has entries,
    so an argument without a mapping is not in the result. A command that
    [Cmd.__init__] returned has as many mappings as its pattern has
    groups, so for the groups of a match every capture is mapped. *)
Theorem arguments_are_mapped_pairwise (c : Cmd.t) mappings arguments st
  res st' :
  Cmd.argument_mappings c = Some mappings ->
  Cmd.map_arguments env c arguments st = (inr res, st') ->
  length res = min (length mappings) (length arguments)
  /\ (forall i f a,
        mappings !! i = Some f -> arguments !! i = Some a ->
        exists x sti sti',
          res !! i = Some x /\ call_value env f [a] sti = (inr x, sti'))
  /\ (forall func pattern return_mapping doc p request groups,
        Cmd.init env func pattern (Some mappings) return_mapping doc = inr c ->
        Cmd.pattern c = Some p ->
        re_match p request = Some groups ->
        length groups = length mappings).
Proof.
  intros Hm Ha. unfold Cmd.map_arguments in Ha. rewrite Hm in Ha.
  destruct (map_zip_pairwise env _ _ _ _ _ Ha) as [Hlen Hi].
  split; [exact Hlen|]. split; [exact Hi|].
  intros func pattern return_mapping doc p request groups Hinit Hp Hg.
  apply init_inv in Hinit as (compiled&_&Hcheck&_&_&_&Hc&_).
  rewrite Hp in Hc. subst compiled. simpl in Hcheck.
  destruct (decide (re_groups p <> length mappings)) as [|Heq%dec_stable];
    [done|].
  rewrite <- Heq. by eapply re_match_groups.
Qed.
End Pairwise.

(** C6, as the claim has it, fails: with one mapping and two arguments the
    second argument is dropped, not passed through. *)
Lemma unmapped_arguments_are_dropped :
  Cmd.map_arguments Example.env Example.speed_setting [VStr "1"; VStr "2"]
                    (Example.received [])
  = (inr [VInt 1], Example.received [])
  /\ [VInt 1] <> [VInt 1; VStr "2"].
Proof. split; [reflexivity|discriminate]. Qed.

Lemma arguments_are_mapped_pairwise_witness :
  length [VInt 10] = min (length [Example.int]) (length [VStr "10"]).
Proof.
  apply (proj1 (arguments_are_mapped_pairwise
                  Example.env Example.speed_setting [Example.int]
                  [VStr "10"] (Example.received []) [VInt 10]
                  (Example.received []) eq_refl eq_refl)).
Defined.

(** ** Binding *)

#[local] Set Warnings "-clear-no-such-hyp".

Section Binder.
Context `{Regex} (env : Env) (w : World).

(** The commands that the members of a command list are bound to, in the
    order of the list: what [cmd.bind(self) or cmd.bind(self._device)]
    gives for each of them. *)
Fixpoint resolve_all (cmds : list CommandBase) : result (list Cmd.t) :=
  match cmds with
  | [] => ok []
  | cmd :: cmds =>
      let! bound := StreamAdapter.resolve env w cmd in
      match bound with
      | None => raise_ (StreamAdapter.non_existing_member
                          (StreamAdapter.member cmd))
      | Some bound =>
          let! rest := resolve_all cmds in
          ok (bound ++ rest)
      end
  end.

(** What [_bind_commands] raises at a command whose pattern is already in
    the set. *)
Definition duplicate_error (c : Cmd.t) : Exception :=
  match Cmd.pattern c with
  | Some p => StreamAdapter.multiple_commands (re_source p)
  | None => AttributeError "'NoneType' object has no attribute 'pattern'"
  end.

Lemma add_bound_app b1 b2 patterns acc :
  StreamAdapter.add_bound (b1 ++ b2) patterns acc
  = let! (patterns', acc') := StreamAdapter.add_bound b1 patterns acc in
    StreamAdapter.add_bound b2 patterns' acc'.
Proof.
  revert patterns acc. induction b1 as [|c b1 IH]; intros patterns acc; simpl.
  - done.
  - destruct (bool_decide _); [by destruct (Cmd.pattern c)|]. apply IH.
Qed.

Lemma add_bound_inr bound : forall patterns acc patterns' acc',
  StreamAdapter.add_bound bound patterns acc = inr (patterns', acc') ->
  acc' = acc ++ bound
  /\ patterns' = list_to_set (Cmd.pattern <$> bound) ∪ patterns
  /\ NoDup (Cmd.pattern <$> bound)
  /\ (forall c, c ∈ bound -> Cmd.pattern c ∉ patterns).
Proof.
  induction bound as [|c bound IH]; intros patterns acc patterns' acc'; simpl.
  - intros [= <- <-]. rewrite app_nil_r. repeat split.
    + set_solver.
    + constructor.
    + by intros c ?%elem_of_nil.
  - destruct (bool_decide_reflect (Cmd.pattern c ∈ patterns)) as [Hin|Hout].
    { by destruct (Cmd.pattern c). }
    intros Hb. apply IH in Hb as (->&->&Hnd&Hfresh). repeat split.
    + by rewrite <- app_assoc.
    + set_solver.
    + constructor; [|done]. intros Hc.
      apply list_elem_of_fmap in Hc as (c'&Hp&Hc').
      apply (Hfresh c' Hc'). apply elem_of_union_l, elem_of_singleton.
      congruence.
    + intros c' [->|Hc']%elem_of_cons; [done|].
      intros Hp. apply (Hfresh c' Hc'). set_solver.
Qed.

Lemma add_bound_fresh bound : forall patterns acc,
  NoDup (Cmd.pattern <$> bound) ->
  (forall c, c ∈ bound -> Cmd.pattern c ∉ patterns) ->
  StreamAdapter.add_bound bound patterns acc
  = inr (list_to_set (Cmd.pattern <$> bound) ∪ patterns, acc ++ bound).
Proof.
  induction bound as [|c bound IH]; intros patterns acc Hnd Hfresh; simpl.
  - rewrite app_nil_r. do 2 f_equal. set_solver.
  - apply NoDup_cons in Hnd as [Hc Hnd].
    destruct (bool_decide_reflect (Cmd.pattern c ∈ patterns)) as [Hin|Hout].
    { exfalso. apply (Hfresh c); [left|done]. }
    rewrite IH; [|done|].
    + rewrite <- app_assoc. do 2 f_equal. set_solver.
    + intros c' Hc'. apply not_elem_of_union. split; [|apply Hfresh; by right].
      intros Heq%elem_of_singleton. apply Hc. rewrite <- Heq.
      by apply list_elem_of_fmap_2.
Qed.

Lemma add_bound_duplicate pre c post patterns acc :
  NoDup (Cmd.pattern <$> pre) ->
  (forall x, x ∈ pre -> Cmd.pattern x ∉ patterns) ->
  Cmd.pattern c ∈ (Cmd.pattern <$> pre) \/ Cmd.pattern c ∈ patterns ->
  StreamAdapter.add_bound (pre ++ c :: post) patterns acc
  = inl (duplicate_error c).
Proof.
  intros Hnd Hfresh Hdup. rewrite add_bound_app, add_bound_fresh by done.
  simpl. rewrite bool_decide_true; [by unfold duplicate_error; destruct (Cmd.pattern c)|].
  destruct Hdup; set_solver.
Qed.

Lemma bind_loop_app cs rest patterns acc :
  StreamAdapter.bind_loop env w (cs ++ rest) patterns acc
  = let! (patterns', acc') := StreamAdapter.bind_loop env w cs patterns acc in
    StreamAdapter.bind_loop env w rest patterns' acc'.
Proof.
  revert patterns acc. induction cs as [|cmd cs IH]; intros patterns acc; simpl.
  - done.
  - destruct (StreamAdapter.resolve env w cmd) as [e|[bound|]]; simpl; try done.
    destruct (StreamAdapter.add_bound bound patterns acc) as [e|[p' a']];
      simpl; [done|]. apply IH.
Qed.

Lemma bind_loop_resolved cmds : forall bound patterns acc,
  resolve_all cmds = inr bound ->
  StreamAdapter.bind_loop env w cmds patterns acc
  = StreamAdapter.add_bound bound patterns acc.
Proof.
  induction cmds as [|cmd cmds IH]; intros bound patterns acc; simpl.
  - by intros [= <-].
  - destruct (StreamAdapter.resolve env w cmd) as [e|[b|]]; simpl; try done.
    destruct (resolve_all cmds) as [e|rest]; simpl; [done|].
    intros [= <-]. rewrite add_bound_app.
    destruct (StreamAdapter.add_bound b patterns acc) as [e|[p' a']];
      simpl; [done|]. by apply IH.
Qed.

Lemma bind_loop_inr cmds : forall patterns acc patterns' acc',
  StreamAdapter.bind_loop env w cmds patterns acc = inr (patterns', acc') ->
  exists bound,
    resolve_all cmds = inr bound
    /\ StreamAdapter.add_bound bound patterns acc = inr (patterns', acc').
Proof.
  induction cmds as [|cmd cmds IH]; intros patterns acc patterns' acc'; simpl.
  - intros [= <- <-]. by exists [].
  - destruct (StreamAdapter.resolve env w cmd) as [e|[b|]]; simpl; try done.
    destruct (StreamAdapter.add_bound b patterns acc) as [e|[p1 a1]] eqn:Hb;
      simpl; [done|].
    intros Hl. apply IH in Hl as (rest&Hr&Ha). exists (b ++ rest).
    rewrite Hr. simpl. split; [done|]. by rewrite add_bound_app, Hb.
Qed.

Lemma bind_commands_inr cmds table :
  StreamAdapter._bind_commands env w cmds = inr table ->
  resolve_all cmds = inr table /\ NoDup (Cmd.pattern <$> table).
Proof.
  unfold StreamAdapter._bind_commands.
  destruct (StreamAdapter.bind_loop env w cmds ∅ []) as [e|[p t]] eqn:Hl;
    simpl; [done|].
  intros [= ->]. apply bind_loop_inr in Hl as (bound&Hr&Ha).
  apply add_bound_inr in Ha as (->&_&Hnd&_). by rewrite Hr.
Qed.

Lemma bind_commands_unique cmds table :
  resolve_all cmds = inr table ->
  NoDup (Cmd.pattern <$> table) ->
  StreamAdapter._bind_commands env w cmds = inr table.
Proof.
  intros Hr Hnd. unfold StreamAdapter._bind_commands.
  rewrite (bind_loop_resolved _ _ _ _ Hr), add_bound_fresh; [done|done|].
  intros c _. apply not_elem_of_empty.
Qed.

Lemma bind_commands_duplicate cs rest pre c post :
  resolve_all cs = inr (pre ++ c :: post) ->
  NoDup (Cmd.pattern <$> pre) ->
  Cmd.pattern c ∈ (Cmd.pattern <$> pre) ->
  StreamAdapter._bind_commands env w (cs ++ rest) = inl (duplicate_error c).
Proof.
  intros Hr Hnd Hdup. unfold StreamAdapter._bind_commands.
  rewrite bind_loop_app, (bind_loop_resolved _ _ _ _ Hr).
  rewrite (add_bound_duplicate pre c post); [done|done| |by left].
  intros x _. apply not_elem_of_empty.
Qed.
End Binder.

Section BinderClaims.
Context `{Regex} (env : Env) (w : World).

(** C4. A table that [_bind_commands] returns holds the commands its
    list resolves to, in order, no two with the same compiled pattern.
    When the commands resolved so far hold a pattern twice,
    [_bind_commands] raises at its second occurrence, whatever follows in
    the list: [RuntimeError] with the pattern's source for a compiled
    pattern. An exception of [_bind_commands] is the exception of
    [StreamAdapter.__init__], which then returns no adapter and so no
    part of a table. *)
Theorem binding_is_unique_and_all_or_nothing (cmds : list CommandBase) :
  (forall table,
      StreamAdapter._bind_commands env w cmds = inr table ->
      NoDup (Cmd.pattern <$> table) /\ resolve_all env w cmds = inr table)
  /\ (forall cs rest pre c post,
        cmds = cs ++ rest ->
        resolve_all env w cs = inr (pre ++ c :: post) ->
        NoDup (Cmd.pattern <$> pre) ->
        Cmd.pattern c ∈ (Cmd.pattern <$> pre) ->
        StreamAdapter._bind_commands env w cmds = inl (duplicate_error c)
        /\ (forall p, Cmd.pattern c = Some p ->
              duplicate_error c
              = StreamAdapter.multiple_commands (re_source p)))
  /\ (forall cls e,
        StreamAdapter.commands cls = Some cmds ->
        StreamAdapter._bind_commands env w cmds = inl e ->
        StreamAdapter.init env cls w = inl e).
Proof.
  split; [|split].
  - intros table Hb. by apply bind_commands_inr in Hb as [? ?].
  - intros cs rest pre c post -> Hr Hnd Hdup. split.
    + by eapply bind_commands_duplicate.
    + intros p Hp. unfold duplicate_error. by rewrite Hp.
  - intros cls e Hc Hb. unfold StreamAdapter.init. by rewrite Hc, Hb.
Qed.

Lemma cmd_bind_missing name (c : Cmd.t) t :
  Cmd.func c = VStr name ->
  getattr_default env w t (VStr name) = inr VNone ->
  Cmd.bind env w t c = inr None.
Proof. intros Hf Hg. unfold Cmd.bind. by rewrite Hf, Hg. Qed.

(** C8, at the missing method. A command that names a method which
    neither the adapter nor the device has makes [_bind_commands] raise
    the error for a non-existing member, and the member the message names
    is [None], the [member] that [Cmd.__init__] hands to [CommandBase],
    whatever the name of the method is. *)
Theorem missing_method_is_reported_as_None name pattern argument_mappings
  return_mapping doc (c : Cmd.t) rest :
  Cmd.init env (VStr name) pattern argument_mappings return_mapping doc
  = inr c ->
  getattr_default env w Self (VStr name) = inr VNone ->
  getattr_default env w Device (VStr name) = inr VNone ->
  StreamAdapter._bind_commands env w (IsCmd c :: rest)
  = inl (RuntimeError
           "Unable to produce callable object for non-existing member 'None' of device or interface.").
Proof.
  intros Hi Hs Hd. apply init_inv in Hi as (_&_&_&Hm&Hf&_).
  unfold StreamAdapter._bind_commands. simpl.
  unfold StreamAdapter.resolve. simpl.
  rewrite (cmd_bind_missing name c Self Hf Hs). simpl.
  rewrite (cmd_bind_missing name c Device Hf Hd). simpl.
  by rewrite Hm.
Qed.

Lemma var_bind_absent (v : Var.t) t :
  in_dir env w t (Var.member v) = false -> Var.bind env w t v = inr None.
Proof. intros Hd. unfold Var.bind. by rewrite Hd. Qed.

Lemma var_bind_no_patterns (v : Var.t) t :
  Var.read_pattern v = None -> Var.write_pattern v = None ->
  in_dir env w t (Var.member v) = true ->
  Var.bind env w t v = inr (Some []).
Proof. intros Hr Hw Hd. unfold Var.bind. by rewrite Hd, Hr, Hw. Qed.

Lemma bind_commands_stops (pre rest : list CommandBase) cmd table :
  StreamAdapter._bind_commands env w pre = inr table ->
  StreamAdapter.resolve env w cmd = inr None ->
  StreamAdapter._bind_commands env w (pre ++ cmd :: rest)
  = inl (StreamAdapter.non_existing_member (StreamAdapter.member cmd)).
Proof.
  unfold StreamAdapter._bind_commands. intros Hp Hr. rewrite bind_loop_app.
  destruct (StreamAdapter.bind_loop env w pre ∅ []) as [e|[p t]];
    simpl in *; [done|].
  by rewrite Hr.
Qed.

(** C10. A [Var] without read and write pattern whose member the
    adapter or the device has is bound to the empty list by [Var.bind];
    [_bind_commands] takes the empty list as it takes [None] and raises the
    error for a non-existing member with the member's name, the error it
    raises for a [Var] whose member neither object has. *)
Theorem var_without_patterns_is_reported_missing (v : Var.t)
  (pre rest : list CommandBase) table :
  Var.read_pattern v = None ->
  Var.write_pattern v = None ->
  in_dir env w Self (Var.member v) = true
  \/ in_dir env w Device (Var.member v) = true ->
  StreamAdapter._bind_commands env w pre = inr table ->
  (forall t, in_dir env w t (Var.member v) = true ->
             Var.bind env w t v = inr (Some []))
  /\ StreamAdapter._bind_commands env w (pre ++ IsVar v :: rest)
     = inl (StreamAdapter.non_existing_member (VStr (Var.member v)))
  /\ (forall v' : Var.t,
        Var.member v' = Var.member v ->
        in_dir env w Self (Var.member v') = false ->
        in_dir env w Device (Var.member v') = false ->
        StreamAdapter._bind_commands env w (pre ++ IsVar v' :: rest)
        = inl (StreamAdapter.non_existing_member (VStr (Var.member v)))).
Proof.
  intros Hr Hw Hd Hp. split; [|split].
  - intros t Ht. by apply var_bind_no_patterns.
  - apply (bind_commands_stops pre rest (IsVar v) table Hp).
    unfold StreamAdapter.resolve. simpl.
    assert (Hb : forall t, exists b,
               Var.bind env w t v = inr b
               /\ StreamAdapter.truthy_bound b = false).
    { intros t. destruct (in_dir env w t (Var.member v)) eqn:Ht.
      - exists (Some []). by rewrite var_bind_no_patterns.
      - exists None. by rewrite var_bind_absent. }
    destruct (Hb Self) as (b1&Hb1&Ht1). destruct (Hb Device) as (b2&Hb2&Ht2).
    rewrite Hb1. simpl. rewrite Ht1, Hb2. simpl. by rewrite Ht2.
  - intros v' Hm Hs Hdv.
    rewrite <- Hm.
    apply (bind_commands_stops pre rest (IsVar v') table Hp).
    unfold StreamAdapter.resolve. simpl.
    by rewrite !var_bind_absent.
Qed.
End BinderClaims.

(** A second command with the pattern of [Example.speed_query]. *)
Definition speed_query_again : Cmd.t (H := python_re) :=
  {| Cmd.member := VNone;
     Cmd.func := VCallable (BoundMethod Self "set_speed");
     Cmd.raw_pattern := Some "^S\?$";
     Cmd.pattern := Some "^S\?$";
     Cmd.argument_mappings := None;
     Cmd.return_mapping := Example.default_return_mapping;
     Cmd.doc := None |}.

Lemma binding_is_unique_and_all_or_nothing_witness :
  StreamAdapter._bind_commands
    Example.env Example.world0
    [IsCmd Example.speed_query; IsCmd speed_query_again]
  = inl (RuntimeError
           "The regular expression ^S\?$ is associated with multiple commands.").
Proof.
  refine (proj1 (proj1 (proj2
            (binding_is_unique_and_all_or_nothing
               Example.env Example.world0
               [IsCmd Example.speed_query; IsCmd speed_query_again]))
            [IsCmd Example.speed_query; IsCmd speed_query_again] []
            [Example.speed_query] speed_query_again [] eq_refl eq_refl _ _)).
  - repeat constructor. by intros ?%elem_of_nil.
  - by left.
Defined.

(** [Cmd('get_position', r'^P\?$')]: the example has no such method. *)
Definition position_query : Cmd.t (H := python_re) :=
  {| Cmd.member := VNone;
     Cmd.func := VStr "get_position";
     Cmd.raw_pattern := Some "^P\?$";
     Cmd.pattern := Some "^P\?$";
     Cmd.argument_mappings := None;
     Cmd.return_mapping := Example.default_return_mapping;
     Cmd.doc := None |}.

Lemma missing_method_is_reported_as_None_witness :
  StreamAdapter._bind_commands Example.env Example.world0
                               [IsCmd position_query]
  = inl (RuntimeError
           "Unable to produce callable object for non-existing member 'None' of device or interface.").
Proof.
  apply (missing_method_is_reported_as_None
           Example.env Example.world0 "get_position" (Some "^P\?$") None
           Example.default_return_mapping None position_query []);
    reflexivity.
Defined.

(** A [Var] for the class attribute [speed] of the device that gives no
    pattern. *)
Definition speed_without_patterns : Var.t :=
  {| Var.member := "speed"; Var.read_pattern := None;
     Var.write_pattern := None; Var.argument_mappings := None;
     Var.return_mapping := Example.default_return_mapping; Var.doc := None |}.

Lemma var_without_patterns_is_reported_missing_witness :
  StreamAdapter._bind_commands
    Example.env Example.world0
    ([IsCmd Example.speed_query] ++ [IsVar speed_without_patterns])
  = inl (RuntimeError
           "Unable to produce callable object for non-existing member 'speed' of device or interface.").
Proof.
  apply (proj1 (proj2
           (var_without_patterns_is_reported_missing
              (H := python_re) Example.env Example.world0
              speed_without_patterns
              [IsCmd Example.speed_query] [] [Example.speed_query]
              eq_refl eq_refl (or_intror eq_refl) eq_refl))).
Defined.

(** ** The adapter collection *)

Section Collection.
Import AdapterCollection.








End Collection.



(** * Further properties of the code *)

(** ** The connection's buffer and what [found_terminator] raises *)

Section Handler.
Context `{Regex} (env : Env).

Lemma send_reply_frame (a : StreamAdapter.t) reply st r st' :
  StreamHandler.send_reply a reply st = (r, st') ->
  world st' = world st /\ calls st' = calls st /\ buffer st' = buffer st.
Proof.
  unfold StreamHandler.send_reply, bind, lift_result, push, ret.
  destruct (negb _); [|by intros [= <- <-]].
  destruct (StreamHandler.frame a reply); by intros [= <- <-].
Qed.

Lemma collect_all (chunks : list string) : forall st,
  exists st',
    foldl (fun st data => snd (StreamHandler.collect_incoming_data data st))
          st chunks = st'
    /\ buffer st' = buffer st ++ chunks
    /\ world st' = world st /\ calls st' = calls st /\ pushed st' = pushed st.
Proof.
  induction chunks as [|data chunks IH]; intros st; simpl.
  - exists st. by rewrite app_nil_r.
  - destruct (IH (set_buffer (buffer st ++ [data]) st)) as (st'&<-&Hb&?&?&?).
    eexists. split; [done|]. simpl in *. by rewrite Hb, <- app_assoc.
Qed.

(** The request that [found_terminator] dispatches is the data collected
    since the last terminator, in the order it arrived, joined with nothing
    in between; and whatever the outcome (a reply, no reply, an exception
    of the hook or of the framing) the buffer is empty afterwards. *)
Theorem buffer_is_joined_and_cleared (a : StreamAdapter.t) chunks st0 :
  buffer st0 = [] ->
  let st := foldl (fun st data =>
                     snd (StreamHandler.collect_incoming_data data st))
                  st0 chunks in
  String.concat "" (buffer st) = String.concat "" chunks
  /\ StreamHandler.take_request st
     = (inr (String.concat "" chunks), set_buffer [] st)
  /\ buffer (snd (StreamHandler.found_terminator env a st)) = [].
Proof.
  intros Hb st. destruct (collect_all chunks st0) as (st'&Hst&Hb'&_).
  fold st in Hst. subst st'. rewrite Hb in Hb'. simpl in Hb'.
  split; [by rewrite Hb'|]. split.
  - unfold StreamHandler.take_request. by rewrite Hb'.
  - rewrite found_terminator_unfold. cbv zeta.
    destruct (StreamHandler.dispatch _ _ _ _) as [[e|reply] st1] eqn:Hd;
      apply dispatch_frame in Hd as [Hd _]; simpl in Hd.
    + destruct (StreamHandler.handle_error a _ e st1) as [[e'|reply] st2] eqn:Hh;
        apply handle_error_frame in Hh as (_&Hh&_).
      * simpl. congruence.
      * destruct (StreamHandler.send_reply a reply st2) as [r st3] eqn:Hs.
        apply send_reply_frame in Hs as (_&_&Hs). simpl. congruence.
    + destruct (StreamHandler.send_reply a reply st1) as [r st3] eqn:Hs.
      apply send_reply_frame in Hs as (_&_&Hs). simpl. congruence.
Qed.


(** A return mapping that is a constant other than a string, which the
    docstring of [Cmd] allows ("a numeric value"), makes every request
    the command processes end in a [TypeError] that leaves
    [found_terminator]: the constant cannot be joined to the terminator. *)
Theorem constant_reply_has_to_be_a_string (a : StreamAdapter.t) st c p groups
  args st1 v st2 :
  let request := String.concat "" (buffer st) in
  StreamHandler.next_can_process (StreamAdapter.bound_commands a) request
  = inr (Some c) ->
  callable (Cmd.func c) = true ->
  Cmd.pattern c = Some p ->
  re_match p request = Some groups ->
  Cmd.map_arguments env c groups (set_buffer [] st) = (inr args, st1) ->
  call_value env (Cmd.func c) args
             (set_calls (calls st1 ++ [(Cmd.func c, args)]) st1)
  = (inr v, st2) ->
  callable (Cmd.return_mapping c) = false ->
  Cmd.return_mapping c <> VNone ->
  (forall s, Cmd.return_mapping c <> VStr s) ->
  StreamHandler.found_terminator env a st
  = (inl (TypeError "unsupported operand type(s) for +"), st2).
Proof.
  intros request Hn Hc Hp Hm Ha Hi Hnc Hnn Hns.
  rewrite found_terminator_unfold. cbv zeta. fold request.
  unfold StreamHandler.dispatch, bind, lift_result. rewrite Hn.
  unfold Cmd.process_request. rewrite Hc, Hp, Hm. simpl.
  unfold bind. rewrite Ha. simpl. rewrite Hi.
  unfold Cmd.map_return_value. rewrite Hnc.
  destruct (Cmd.return_mapping c) eqn:Hr; try done; by destruct (Hns s).
Qed.
End Handler.

(** [Cmd('get_speed', r'^S\?$', return_mapping=5)], bound. *)
Definition speed_query_five : Cmd.t (H := python_re) :=
  {| Cmd.member := VNone;
     Cmd.func := VCallable (BoundMethod Self "get_speed");
     Cmd.raw_pattern := Some "^S\?$"; Cmd.pattern := Some "^S\?$";
     Cmd.argument_mappings := None;
     Cmd.return_mapping := VInt 5; Cmd.doc := None |}.

Lemma buffer_is_joined_and_cleared_witness :
  StreamHandler.take_request
    (foldl (fun st data => snd (StreamHandler.collect_incoming_data data st))
           (Example.received []) ["S="; "10"])
  = (inr "S=10", Example.received []).
Proof.
  apply (proj1 (proj2 (buffer_is_joined_and_cleared
                         Example.env (Example.adapter [Example.speed_setting])
                         ["S="; "10"] (Example.received []) eq_refl))).
Defined.

Lemma constant_reply_has_to_be_a_string_witness :
  fst (StreamHandler.found_terminator
         Example.env (Example.adapter [speed_query_five])
         (Example.received ["S?"]))
  = inl (TypeError "unsupported operand type(s) for +").
Proof.
  rewrite (constant_reply_has_to_be_a_string
             Example.env (Example.adapter [speed_query_five])
             (Example.received ["S?"]) speed_query_five "^S\?$" [] []
             (Example.received []) (VInt 0)
             (set_calls [(VCallable (BoundMethod Self "get_speed"), [])]
                        (Example.received []))
             eq_refl eq_refl eq_refl eq_refl eq_refl eq_refl eq_refl
             ltac:(discriminate) ltac:(discriminate)).
  reflexivity.
Defined.


(** ** Requests that no command processes *)

Section Scan.
Context `{Regex} (env : Env).

Lemma next_can_process_none (cmds : list Cmd.t) request :
  Forall (fun c => Cmd.can_process c request = inr false) cmds ->
  StreamHandler.next_can_process cmds request = inr None.
Proof.
  induction 1 as [|c cmds Hc _ IH]; simpl; [done|]. by rewrite Hc.
Qed.

Lemma next_can_process_raises (pre post : list Cmd.t) c e request :
  Forall (fun c => Cmd.can_process c request = inr false) pre ->
  Cmd.can_process c request = inl e ->
  StreamHandler.next_can_process (pre ++ c :: post) request = inl e.
Proof.
  intros Hpre Hc. induction Hpre as [|c0 pre Hc0 _ IH]; simpl.
  - by rewrite Hc.
  - by rewrite Hc0.
Qed.

(** With the default error hook, a request that none of the bound
    commands can process is dropped: [found_terminator] returns, nothing is
    pushed, no callable is called and the objects are as they were; only
    the buffer is emptied. *)
Theorem unknown_request_is_ignored (a : StreamAdapter.t) st :
  StreamAdapter.handle_error (StreamAdapter.class a)
  = StreamAdapter.default_handle_error ->
  Forall (fun c => Cmd.can_process c (String.concat "" (buffer st))
                   = inr false)
         (StreamAdapter.bound_commands a) ->
  StreamHandler.found_terminator env a st = (inr tt, set_buffer [] st).
Proof.
  intros Hh Hall. rewrite found_terminator_unfold. cbv zeta.
  rewrite (dispatch_no_match env a _ _ (next_can_process_none _ _ Hall)).
  unfold StreamHandler.handle_error. by rewrite Hh.
Qed.

(** A command built from an empty pattern has no compiled pattern. When
    the scan of the bound commands reaches it, [can_process] raises
    [AttributeError]: the request goes to the error hook, and neither this
    command nor any command after it is called, whatever their patterns
    are. *)
Theorem command_without_pattern_stops_the_scan (a : StreamAdapter.t)
  (c : Cmd.t) pre post func argument_mappings return_mapping doc st :
  let request := String.concat "" (buffer st) in
  let error := AttributeError "'NoneType' object has no attribute 'match'" in
  Cmd.init env func (Some "") argument_mappings return_mapping doc = inr c ->
  StreamAdapter.bound_commands a = pre ++ c :: post ->
  Forall (fun c => Cmd.can_process c request = inr false) pre ->
  Cmd.pattern c = None
  /\ StreamHandler.dispatch env a request (set_buffer [] st)
     = (inl error, set_buffer [] st)
  /\ StreamHandler.found_terminator env a st
     = (let* reply := StreamHandler.handle_error a request error in
        StreamHandler.send_reply a reply) (set_buffer [] st)
  /\ calls (snd (StreamHandler.found_terminator env a st)) = calls st.
Proof.
  intros request error Hi Ht Hpre.
  apply init_inv in Hi as (compiled&Hc&_&_&_&_&Hp&_).
  simpl in Hc. injection Hc as <-.
  assert (Hd : StreamHandler.dispatch env a request (set_buffer [] st)
               = (inl error, set_buffer [] st)).
  { unfold StreamHandler.dispatch, bind, lift_result.
    rewrite Ht, (next_can_process_raises pre post c error); [done|done|].
    unfold Cmd.can_process. by rewrite Hp. }
  split; [done|]. split; [done|].
  assert (Hf : StreamHandler.found_terminator env a st
               = (let* reply := StreamHandler.handle_error a request error in
                  StreamHandler.send_reply a reply) (set_buffer [] st)).
  { rewrite found_terminator_unfold. cbv zeta. fold request. rewrite Hd.
    unfold bind. by destruct (StreamHandler.handle_error _ _ _ _) as [[?|?] ?]. }
  split; [done|]. rewrite Hf. unfold bind.
  destruct (StreamHandler.handle_error a request error _) as [[e|v] st2] eqn:Hh;
    apply handle_error_frame in Hh as (Hh&_); simpl in *; [done|].
  destruct (StreamHandler.send_reply a v st2) as [r st3] eqn:Hs.
  apply send_reply_calls in Hs. simpl. congruence.
Qed.
End Scan.

(** [Cmd('get_speed', '')], bound. *)
Definition speed_query_unpatterned : Cmd.t (H := python_re) :=
  {| Cmd.member := VNone;
     Cmd.func := VCallable (BoundMethod Self "get_speed");
     Cmd.raw_pattern := Some ""; Cmd.pattern := None;
     Cmd.argument_mappings := None;
     Cmd.return_mapping := Example.default_return_mapping; Cmd.doc := None |}.

Lemma unknown_request_is_ignored_witness :
  StreamHandler.found_terminator
    Example.env (Example.adapter [Example.speed_query; Example.speed_setting])
    (Example.received ["Q?"])
  = (inr tt, Example.received []).
Proof.
  apply (unknown_request_is_ignored
           Example.env
           (Example.adapter [Example.speed_query; Example.speed_setting])
           (Example.received ["Q?"]) eq_refl).
  repeat constructor.
Defined.

Lemma command_without_pattern_stops_the_scan_witness :
  calls (snd (StreamHandler.found_terminator
                Example.env
                (Example.adapter [Example.speed_query;
                                  speed_query_unpatterned;
                                  Example.speed_setting])
                (Example.received ["S=10"])))
  = [].
Proof.
  apply (proj2 (proj2 (proj2
           (command_without_pattern_stops_the_scan
              Example.env
              (Example.adapter [Example.speed_query; speed_query_unpatterned;
                                Example.speed_setting])
              speed_query_unpatterned [Example.speed_query]
              [Example.speed_setting]
              (VCallable (BoundMethod Self "get_speed")) None
              Example.default_return_mapping None
              (Example.received ["S=10"]) eq_refl eq_refl
              ltac:(repeat constructor))))).
Defined.

(** ** Binding to the adapter and the device *)

Section Resolution.
Context `{Regex} (env : Env) (w : World).

Lemma init_again func pattern argument_mappings return_mapping doc
  (c : Cmd.t) func' doc' :
  Cmd.init env func pattern argument_mappings return_mapping doc = inr c ->
  exists c',
    Cmd.init env func' (Cmd.raw_pattern c) (Cmd.argument_mappings c)
             (Cmd.return_mapping c) doc' = inr c'
    /\ Cmd.func c' = func' /\ Cmd.pattern c' = Cmd.pattern c
    /\ Cmd.argument_mappings c' = Cmd.argument_mappings c
    /\ Cmd.return_mapping c' = Cmd.return_mapping c.
Proof.
  intros Hi. apply init_inv in Hi as (compiled&Hc&Hm&_&_&Hr&Hp&Ha&Hrm).
  unfold Cmd.init, result_bind. rewrite Hr, Ha, Hc, Hm, Hrm.
  eexists. split; [done|]. by rewrite Hp.
Qed.

Lemma getattr_method t name doc b :
  class_of env t !! name = Some (CMethod doc b) ->
  instance_dict w t !! name = None ->
  getattr_default env w t (VStr name) = inr (VCallable (BoundMethod t name)).
Proof.
  intros Hc Hi. unfold getattr_default, getattr. by rewrite Hc, Hi.
Qed.

Lemma getattr_absent t name :
  class_of env t !! name = None ->
  instance_dict w t !! name = None ->
  getattr_default env w t (VStr name) = inr VNone.
Proof.
  intros Hc Hi. unfold getattr_default, getattr. by rewrite Hc, Hi.
Qed.

Lemma cmd_bind_found name (c c' : Cmd.t) t method :
  Cmd.func c = VStr name ->
  getattr_default env w t (VStr name) = inr method ->
  is_None method = false ->
  Cmd.init env method (Cmd.raw_pattern c) (Cmd.argument_mappings c)
           (Cmd.return_mapping c) (Cmd.doc c) = inr c' ->
  Cmd.bind env w t c = inr (Some [c']).
Proof.
  intros Hf Hg Hn Hi. unfold Cmd.bind. rewrite Hf, Hg. cbn [callable].
  unfold result_bind. by rewrite Hn, Hi.
Qed.

(** A command that names a method is bound to the adapter's method when
    the adapter has one of that name, whether or not the device has one
    too, and to the device's method when the adapter has nothing of that
    name. The bound command keeps the pattern and the mappings. A command
    whose callable is given directly is bound to itself. *)
Theorem method_is_looked_up_on_the_adapter_first name pattern
  argument_mappings return_mapping doc (c : Cmd.t) :
  Cmd.init env (VStr name) pattern argument_mappings return_mapping doc
  = inr c ->
  (forall d b,
      class_of env Self !! name = Some (CMethod d b) ->
      instance_dict w Self !! name = None ->
      exists c',
        StreamAdapter.resolve env w (IsCmd c) = inr (Some [c'])
        /\ Cmd.func c' = VCallable (BoundMethod Self name)
        /\ Cmd.pattern c' = Cmd.pattern c
        /\ Cmd.argument_mappings c' = Cmd.argument_mappings c
        /\ Cmd.return_mapping c' = Cmd.return_mapping c)
  /\ (forall d b,
        class_of env Self !! name = None ->
        instance_dict w Self !! name = None ->
        class_of env Device !! name = Some (CMethod d b) ->
        instance_dict w Device !! name = None ->
        exists c',
          StreamAdapter.resolve env w (IsCmd c) = inr (Some [c'])
          /\ Cmd.func c' = VCallable (BoundMethod Device name)
          /\ Cmd.pattern c' = Cmd.pattern c
          /\ Cmd.argument_mappings c' = Cmd.argument_mappings c
          /\ Cmd.return_mapping c' = Cmd.return_mapping c)
  /\ (forall direct : Cmd.t,
        callable (Cmd.func direct) = true ->
        StreamAdapter.resolve env w (IsCmd direct) = inr (Some [direct])).
Proof.
  intros Hi. pose proof Hi as (_&_&_&_&Hf&_)%init_inv.
  split; [|split].
  - intros d b Hc Hd.
    destruct (init_again _ _ _ _ _ _ (VCallable (BoundMethod Self name))
                         (Cmd.doc c) Hi) as (c'&Hi'&?).
    exists c'. split; [|done].
    unfold StreamAdapter.resolve. simpl.
    by rewrite (cmd_bind_found name c c' Self _ Hf
                  (getattr_method Self name d b Hc Hd) eq_refl Hi').
  - intros d b Hcs Hds Hc Hd.
    destruct (init_again _ _ _ _ _ _ (VCallable (BoundMethod Device name))
                         (Cmd.doc c) Hi) as (c'&Hi'&?).
    exists c'. split; [|done].
    unfold StreamAdapter.resolve. simpl.
    rewrite (cmd_bind_missing env w name c Self Hf
               (getattr_absent Self name Hcs Hds)). simpl.
    by rewrite (cmd_bind_found name c c' Device _ Hf
                  (getattr_method Device name d b Hc Hd) eq_refl Hi').
  - intros direct Hd. unfold StreamAdapter.resolve. simpl. unfold Cmd.bind.
    by rewrite Hd.
Qed.

(** A command that names an attribute which is not callable (a value in
    the instance dictionary, say) is bound all the same: [_bind_commands]
    returns a table with a command whose [func] is that value. The command
    still takes part in the scan, and every request it is chosen for
    raises "Trying to process request on unbound Binder." before any
    argument is mapped. *)
Theorem data_attribute_is_bound_but_never_callable name pattern
  argument_mappings return_mapping doc (c : Cmd.t) v :
  Cmd.init env (VStr name) pattern argument_mappings return_mapping doc
  = inr c ->
  class_of env Self !! name = None ->
  instance_dict w Self !! name = Some v ->
  v <> VNone ->
  callable v = false ->
  exists c',
    StreamAdapter._bind_commands env w [IsCmd c] = inr [c']
    /\ Cmd.func c' = v
    /\ Cmd.pattern c' = Cmd.pattern c
    /\ (forall request, Cmd.can_process c' request = Cmd.can_process c request)
    /\ (forall request st,
          Cmd.process_request env c' request st
          = (inl (RuntimeError "Trying to process request on unbound Binder."),
             st)).
Proof.
  intros Hi Hc Hd Hn Hnc. pose proof Hi as (_&_&_&_&Hf&_)%init_inv.
  destruct (init_again _ _ _ _ _ _ v (Cmd.doc c) Hi) as (c'&Hi'&Hf'&Hp'&_).
  exists c'. repeat split; try done.
  - unfold StreamAdapter._bind_commands. simpl.
    unfold StreamAdapter.resolve. simpl.
    assert (Hg : getattr_default env w Self (VStr name) = inr v).
    { unfold getattr_default, getattr. by rewrite Hc, Hd. }
    rewrite (cmd_bind_found name c c' Self v Hf Hg); [|by destruct v|done].
    simpl. by rewrite bool_decide_false by apply not_elem_of_empty.
  - intros request. unfold Cmd.can_process. by rewrite Hp'.
  - intros request st. unfold Cmd.process_request. by rewrite Hf', Hnc.
Qed.
End Resolution.

(** [Cmd('get_speed', r'^S\?$')], as it stands in a command list. *)
Definition speed_query_spec : Cmd.t (H := python_re) :=
  {| Cmd.member := VNone; Cmd.func := VStr "get_speed";
     Cmd.raw_pattern := Some "^S\?$"; Cmd.pattern := Some "^S\?$";
     Cmd.argument_mappings := None;
     Cmd.return_mapping := Example.default_return_mapping; Cmd.doc := None |}.

(** [Cmd('limit', r'^L\?$')], and an adapter with the instance attribute
    [limit]. *)
Definition limit_query_spec : Cmd.t (H := python_re) :=
  {| Cmd.member := VNone; Cmd.func := VStr "limit";
     Cmd.raw_pattern := Some "^L\?$"; Cmd.pattern := Some "^L\?$";
     Cmd.argument_mappings := None;
     Cmd.return_mapping := Example.default_return_mapping; Cmd.doc := None |}.
Definition world_with_limit : World :=
  {| interface_dict := <["limit" := VInt 5]> ∅; device_dict := ∅ |}.

Lemma method_is_looked_up_on_the_adapter_first_witness :
  exists c',
    StreamAdapter.resolve Example.env Example.world0 (IsCmd speed_query_spec)
    = inr (Some [c'])
    /\ Cmd.func c' = VCallable (BoundMethod Self "get_speed")
    /\ Cmd.pattern c' = Cmd.pattern speed_query_spec
    /\ Cmd.argument_mappings c' = Cmd.argument_mappings speed_query_spec
    /\ Cmd.return_mapping c' = Cmd.return_mapping speed_query_spec.
Proof.
  apply (proj1 (method_is_looked_up_on_the_adapter_first
                  Example.env Example.world0 "get_speed" (Some "^S\?$") None
                  Example.default_return_mapping None speed_query_spec
                  eq_refl)
               None Example.get_speed eq_refl eq_refl).
Defined.

Lemma data_attribute_is_bound_but_never_callable_witness :
  exists c',
    StreamAdapter._bind_commands Example.env world_with_limit
                                 [IsCmd limit_query_spec] = inr [c']
    /\ Cmd.func c' = VInt 5
    /\ Cmd.pattern c' = Cmd.pattern limit_query_spec
    /\ (forall request,
          Cmd.can_process c' request = Cmd.can_process limit_query_spec request)
    /\ (forall request st,
          Cmd.process_request Example.env c' request st
          = (inl (RuntimeError "Trying to process request on unbound Binder."),
             st)).
Proof.
  apply (data_attribute_is_bound_but_never_callable
           Example.env world_with_limit "limit" (Some "^L\?$") None
           Example.default_return_mapping None limit_query_spec (VInt 5)
           eq_refl eq_refl eq_refl ltac:(discriminate) eq_refl).
Defined.

(** ** Properties of the device as commands *)

Section Vars.
Context `{Regex} (env : Env) (w : World).

Lemma accessor_doc_plain t (v : Var.t) a prefix :
  class_of env t !! Var.member v = Some a ->
  isdatadescriptor a = false ->
  Var.accessor_doc env t v prefix = inr None.
Proof.
  intros Ha Hd. unfold Var.accessor_doc, getattr_type. rewrite Ha. simpl.
  by rewrite Hd.
Qed.

Lemma in_dir_class t name a :
  class_of env t !! name = Some a -> in_dir env w t name = true.
Proof. intros Ha. unfold in_dir. by rewrite Ha. Qed.

Lemma init_ok func pattern p argument_mappings return_mapping doc :
  pattern <> "" ->
  re_compile pattern = inr p ->
  Cmd.check_mappings (Some p) argument_mappings = inr tt ->
  exists c,
    Cmd.init env func (Some pattern) argument_mappings return_mapping doc
    = inr c
    /\ Cmd.func c = func /\ Cmd.pattern c = Some p
    /\ Cmd.argument_mappings c = argument_mappings
    /\ Cmd.return_mapping c = return_mapping.
Proof.
  intros Hne Hp Hm. unfold Cmd.init, result_bind.
  rewrite (compile_pattern_nonempty pattern Hne), Hp, Hm. by eexists.
Qed.

(** For a member that the target's class holds as a method or plain
    attribute, [Var.bind] with a read and a write pattern returns two
    commands, the getter first: the getter has the read pattern and no
    argument mappings, the setter has the write pattern and the [Var]'s
    argument mappings, and both have its return mapping. *)
Theorem var_binds_getter_then_setter (v : Var.t) t a read write pr pw :
  class_of env t !! Var.member v = Some a ->
  isdatadescriptor a = false ->
  Var.read_pattern v = Some read -> read <> "" -> re_compile read = inr pr ->
  Var.write_pattern v = Some write -> write <> "" ->
  re_compile write = inr pw ->
  Cmd.check_mappings (Some pw) (Var.argument_mappings v) = inr tt ->
  exists getter setter,
    Var.bind env w t v = inr (Some [getter; setter])
    /\ Cmd.func getter = VCallable (Getter t (Var.member v) None)
    /\ Cmd.pattern getter = Some pr
    /\ Cmd.argument_mappings getter = None
    /\ Cmd.return_mapping getter = Var.return_mapping v
    /\ Cmd.func setter = VCallable (Setter t (Var.member v) None)
    /\ Cmd.pattern setter = Some pw
    /\ Cmd.argument_mappings setter = Var.argument_mappings v
    /\ Cmd.return_mapping setter = Var.return_mapping v.
Proof.
  intros Ha Hd Hr Hrne Hpr Hw Hwne Hpw Hm.
  destruct (init_ok (VCallable (Getter t (Var.member v) None)) read pr None
                    (Var.return_mapping v) (Var.doc v) Hrne Hpr eq_refl)
    as (g&Hg&?&?&?&?).
  destruct (init_ok (VCallable (Setter t (Var.member v) None)) write pw
                    (Var.argument_mappings v) (Var.return_mapping v)
                    (Var.doc v) Hwne Hpw Hm) as (s&Hs&?&?&?&?).
  exists g, s. split; [|done].
  unfold Var.bind. rewrite (in_dir_class t _ a Ha), Hr, Hw. simpl.
  rewrite !(accessor_doc_plain t v a _ Ha Hd). simpl.
  rewrite Hg. simpl. by rewrite Hs.
Qed.

(** [Var.bind] looks the member up on the target's class. For a member
    that only the instance has, it raises [AttributeError] as soon as a
    read or a write pattern is given; for a property whose docstring
    [inspect.getdoc] does not find, it raises [TypeError]. *)
Theorem var_needs_a_class_attribute (v : Var.t) t :
  Var.read_pattern v <> None \/ Var.write_pattern v <> None ->
  (forall x,
      class_of env t !! Var.member v = None ->
      instance_dict w t !! Var.member v = Some x ->
      Var.bind env w t v = inl (no_attribute (Var.member v)))
  /\ (forall fget fset,
        class_of env t !! Var.member v = Some (CProperty None fget fset) ->
        Var.bind env w t v
        = inl (TypeError "can only concatenate str (not NoneType) to str")).
Proof.
  intros Hp. split.
  - intros x Hc Hi. unfold Var.bind, in_dir. rewrite Hc, Hi. simpl.
    unfold Var.accessor_doc, getattr_type. rewrite Hc.
    destruct (Var.read_pattern v); [done|].
    destruct (Var.write_pattern v); [done|]. by destruct Hp.
  - intros fget fset Hc. unfold Var.bind, in_dir. rewrite Hc. simpl.
    unfold Var.accessor_doc, getattr_type. rewrite Hc.
    destruct (Var.read_pattern v); [done|].
    destruct (Var.write_pattern v); [done|]. by destruct Hp.
Qed.

End Vars.

(** The device of the example with [speed] set on the instance only. *)
Definition env_without_class_speed : Env :=
  {| interface_class := interface_class Example.env;
     device_class := ∅;
     functions := functions Example.env;
     function_doc := function_doc Example.env |}.
Definition world_with_speed : World :=
  {| interface_dict := ∅; device_dict := <["speed" := VInt 0]> ∅ |}.


Lemma var_binds_getter_then_setter_witness :
  exists getter setter : Cmd.t (H := python_re),
    Var.bind Example.env Example.world0 Device Example.speed_var
    = inr (Some [getter; setter])
    /\ Cmd.func getter = VCallable (Getter Device "speed" None)
    /\ Cmd.pattern getter = Some "^V\?$"
    /\ Cmd.argument_mappings getter = None
    /\ Cmd.return_mapping getter = Example.default_return_mapping
    /\ Cmd.func setter = VCallable (Setter Device "speed" None)
    /\ Cmd.pattern setter = Some "^V=([0-9]+)$"
    /\ Cmd.argument_mappings setter = None
    /\ Cmd.return_mapping setter = Example.default_return_mapping.
Proof.
  apply (var_binds_getter_then_setter
           (H := python_re) Example.env Example.world0 Example.speed_var
           Device (CData (VInt 0)) "^V\?$" "^V=([0-9]+)$"
           "^V\?$" "^V=([0-9]+)$"
           eq_refl eq_refl eq_refl ltac:(discriminate) eq_refl
           eq_refl ltac:(discriminate) eq_refl eq_refl).
Defined.

Lemma var_needs_a_class_attribute_witness :
  Var.bind (H := python_re) env_without_class_speed world_with_speed Device
           Example.speed_var
  = inl (no_attribute "speed").
Proof.
  refine (proj1 (var_needs_a_class_attribute
                   (H := python_re) env_without_class_speed world_with_speed
                   Example.speed_var Device (or_introl _))
                (VInt 0) _ _).
  - discriminate.
  - vm_compute; reflexivity.
  - vm_compute; reflexivity.
Defined.


Section RoundTrip.
Context `{Regex} (env : Env).


End RoundTrip.

(** The two commands that [Example.speed_var] is bound to on the device. *)
Definition speed_getter : Cmd.t (H := python_re) :=
  {| Cmd.member := VNone;
     Cmd.func := VCallable (Getter Device "speed" None);
     Cmd.raw_pattern := Some "^V\?$"; Cmd.pattern := Some "^V\?$";
     Cmd.argument_mappings := None;
     Cmd.return_mapping := Example.default_return_mapping; Cmd.doc := None |}.
Definition speed_setter : Cmd.t (H := python_re) :=
  {| Cmd.member := VNone;
     Cmd.func := VCallable (Setter Device "speed" None);
     Cmd.raw_pattern := Some "^V=([0-9]+)$";
     Cmd.pattern := Some "^V=([0-9]+)$";
     Cmd.argument_mappings := None;
     Cmd.return_mapping := Example.default_return_mapping; Cmd.doc := None |}.


(** ** The arity of the bound commands *)

Section Arity.
Context `{Regex} (env : Env) (w : World).

(** A command's argument mappings, when it has some, are as many as the
    groups of its compiled pattern. *)
Definition arity_ok (c : Cmd.t) : Prop :=
  forall mappings,
    Cmd.argument_mappings c = Some mappings ->
    exists p, Cmd.pattern c = Some p /\ re_groups p = length mappings.

Lemma init_arity func pattern argument_mappings return_mapping doc c :
  Cmd.init env func pattern argument_mappings return_mapping doc = inr c ->
  arity_ok c.
Proof.
  intros (compiled&_&Hm&_&_&_&Hp&Ha&_)%init_inv mappings Hmaps.
  rewrite Ha in Hmaps. subst argument_mappings.
  unfold Cmd.check_mappings, raise_, ok in Hm. rewrite Hmaps in Hm.
  destruct compiled as [p|]; [|done]. exists p. split; [done|].
  by destruct (decide (re_groups p <> length mappings)) as [|?%dec_stable].
Qed.

Lemma cmd_bind_arity t (c : Cmd.t) bound :
  arity_ok c ->
  Cmd.bind env w t c = inr (Some bound) -> Forall arity_ok bound.
Proof.
  intros Hc. unfold Cmd.bind. destruct (callable (Cmd.func c)).
  { intros [= <-]. by constructor. }
  unfold result_bind.
  destruct (getattr_default env w t (Cmd.func c)) as [e|method]; [done|].
  destruct (is_None method); [done|].
  destruct (Cmd.init env method _ _ _ _) as [e|c'] eqn:Hi; [done|].
  intros [= <-]. constructor; [|done]. by eapply init_arity.
Qed.

Lemma var_bind_arity t (v : Var.t) bound :
  Var.bind env w t v = inr (Some bound) -> Forall arity_ok bound.
Proof.
  unfold Var.bind. destruct (negb _); [done|]. unfold result_bind.
  destruct (Var.read_pattern v) as [rp|].
  - destruct (Var.accessor_doc env t v "Getter: ") as [e|d]; [done|].
    destruct (Cmd.init env _ (Some rp) None _ _) as [e|g] eqn:Hg; [done|].
    simpl. destruct (Var.write_pattern v) as [wp|].
    + destruct (Var.accessor_doc env t v "Setter: ") as [e|d']; [done|].
      destruct (Cmd.init env _ (Some wp) _ _ _) as [e|s] eqn:Hs; [done|].
      intros [= <-]. repeat constructor; by eapply init_arity.
    + intros [= <-]. repeat constructor; by eapply init_arity.
  - simpl. destruct (Var.write_pattern v) as [wp|].
    + destruct (Var.accessor_doc env t v "Setter: ") as [e|d']; [done|].
      destruct (Cmd.init env _ (Some wp) _ _ _) as [e|s] eqn:Hs; [done|].
      intros [= <-]. repeat constructor; by eapply init_arity.
    + intros [= <-]. constructor.
Qed.

Definition spec_arity_ok (cmd : CommandBase) : Prop :=
  match cmd with
  | IsCmd c => arity_ok c
  | IsVar _ => True
  end.

Lemma resolve_arity cmd bound :
  spec_arity_ok cmd ->
  StreamAdapter.resolve env w cmd = inr (Some bound) -> Forall arity_ok bound.
Proof.
  intros Hcmd. unfold StreamAdapter.resolve, result_bind.
  assert (Hb : forall t b, StreamAdapter.bind env w t cmd = inr (Some b) ->
                           Forall arity_ok b).
  { intros t b. destruct cmd as [c|v]; simpl.
    - by apply cmd_bind_arity.
    - apply var_bind_arity. }
  destruct (StreamAdapter.bind env w Self cmd) as [e|b1] eqn:H1; [done|].
  destruct (StreamAdapter.truthy_bound b1).
  { intros [= ->]. by eapply Hb. }
  destruct (StreamAdapter.bind env w Device cmd) as [e|b2] eqn:H2; [done|].
  destruct (StreamAdapter.truthy_bound b2); [|done].
  intros [= ->]. by eapply Hb.
Qed.

Lemma resolve_all_arity cmds : forall table,
  Forall spec_arity_ok cmds ->
  resolve_all env w cmds = inr table -> Forall arity_ok table.
Proof.
  induction cmds as [|cmd cmds IH]; intros table Hall; simpl.
  - intros [= <-]. constructor.
  - apply Forall_cons in Hall as [Hcmd Hall]. unfold result_bind.
    destruct (StreamAdapter.resolve env w cmd) as [e|[bound|]] eqn:Hr;
      [done| |done].
    destruct (resolve_all env w cmds) as [e|rest]; [done|].
    intros [= <-]. apply Forall_app. split; [by eapply resolve_arity|].
    by apply IH.
Qed.

(** The table of an adapter keeps the arity that [Cmd.__init__] checks:
    when the commands given directly in the list have as many argument
    mappings as their pattern has groups, so has every command of the
    table that [_bind_commands] returns, the commands made for a method
    name and the getters and setters of a [Var] included. For a request
    that such a command matches, every captured group then has its mapping
    function. *)
Theorem bound_commands_keep_the_arity cmds table :
  Forall spec_arity_ok cmds ->
  StreamAdapter._bind_commands env w cmds = inr table ->
  Forall arity_ok table
  /\ (forall c mappings p request groups,
        c ∈ table ->
        Cmd.argument_mappings c = Some mappings ->
        Cmd.pattern c = Some p ->
        re_match p request = Some groups ->
        length groups = length mappings).
Proof.
  intros Hall Hb. apply bind_commands_inr in Hb as [Hr _].
  pose proof (resolve_all_arity cmds table Hall Hr) as Ht.
  split; [done|].
  intros c mappings p request groups Hc Hm Hp Hg.
  rewrite Forall_forall in Ht. destruct (Ht c Hc mappings Hm) as (p'&Hp'&<-).
  rewrite Hp in Hp'. injection Hp' as <-. by eapply re_match_groups.
Qed.
End Arity.

Lemma bound_commands_keep_the_arity_witness :
  Forall (arity_ok (H := python_re))
         [Example.speed_setting; speed_getter; speed_setter].
Proof.
  refine (proj1 (bound_commands_keep_the_arity
                   (H := python_re) Example.env Example.world0
                   [IsCmd Example.speed_setting; IsVar Example.speed_var]
                   [Example.speed_setting; speed_getter; speed_setter]
                   _ _)).
  - repeat constructor. intros mappings [= <-]. by eexists.
  - reflexivity.
Defined.
